(** * onmt/io/HierarchicalTextDataset.py: a shallow embedding

    The module reads hierarchical text corpora (one document per file, one
    sentence per line) into example dictionaries, shards large corpora, builds
    per-example vocabularies and collapses copy scores.  Python objects are
    embedded as records, generators as resumption functions over an explicit
    object store, exceptions as a result type. *)

From Stdlib Require Import ZArith QArith String Ascii List Lia.
From stdpp Require Import base option list gmap strings pretty.

Open Scope Z_scope.

(** ** Python runtime: exceptions, truthiness, slices, indexing, [str] methods *)

Module Py.

Inductive Exn : Type :=
| StopIteration
| UnboundLocalError
| AssertionError
| AttributeError
| IndexError
| RuntimeError
| KeyError
| TypeError.

Inductive result (A : Type) : Type :=
| Ok (a : A)
| Raise (e : Exn).
Arguments Ok {A} a.
Arguments Raise {A} e.

#[export] Instance result_ret : MRet result := fun _ a => Ok a.
#[export] Instance result_bind : MBind result := fun _ _ f m =>
  match m with
  | Ok a => f a
  | Raise e => Raise e
  end.
#[export] Instance result_fmap : FMap result := fun _ _ f m =>
  match m with
  | Ok a => Ok (f a)
  | Raise e => Raise e
  end.

(** [mapM] for [result]: evaluation stops at the first exception, as a list
    comprehension does. *)
Fixpoint traverse {A B : Type} (f : A -> result B) (l : list A)
  : result (list B) :=
  match l with
  | [] => Ok []
  | x :: l' =>
      match f x with
      | Ok y =>
          match traverse f l' with
          | Ok ys => Ok (y :: ys)
          | Raise e => Raise e
          end
      | Raise e => Raise e
      end
  end.

(** [if n:] on an integer (and on [False], which is the integer 0). *)
Definition truthy (n : Z) : bool := negb (n =? 0).

(** [len(l)] as a Python integer. *)
Definition len {A : Type} (l : list A) : Z := Z.of_nat (length l).

(** [l[start:]]: a negative [start] counts from the end and is clipped at 0. *)
Definition slice_from {A : Type} (start : Z) (l : list A) : list A :=
  let i := if start <? 0 then Z.max (len l + start) 0 else start in
  drop (Z.to_nat i) l.

(** [l[:stop]]: a negative [stop] counts from the end and is clipped at 0. *)
Definition slice_to {A : Type} (stop : Z) (l : list A) : list A :=
  let i := if stop <? 0 then Z.max (len l + stop) 0 else stop in
  take (Z.to_nat i) l.

(** [l[i]] on a list: negative indices wrap once, anything else out of range
    raises [IndexError]. *)
Definition getitem {A : Type} (l : list A) (i : Z) : result A :=
  let j := if i <? 0 then len l + i else i in
  if j <? 0 then Raise IndexError
  else match l !! Z.to_nat j with
       | Some x => Ok x
       | None => Raise IndexError
       end.

(** [enumerate(l)]. *)
Definition enumerate {A : Type} (l : list A) : list (Z * A) :=
  imap (fun i x => (Z.of_nat i, x)) l.

(** Characters are decoded code points (below 256 in this model);
    [unicode.isspace] on that range. *)
Definition isspace (c : ascii) : bool :=
  let n := nat_of_ascii c in
  ((9 <=? n) && (n <=? 13) || (28 <=? n) && (n <=? 32)
   || (n =? 133) || (n =? 160))%nat.

Definition newline : ascii := ascii_of_nat 10.
Definition space : ascii := ascii_of_nat 32.

(** A line break replaced by a blank, as [" ".join(s.split("\n"))] does. *)
Definition blanked (c : ascii) : ascii :=
  if Ascii.eqb c newline then space else c.

(** [s.split()] with no separator: maximal runs of non-space characters.
    [cur] is the token being read. A leading [s.strip()] does not change
    the result. *)
Fixpoint split_go (cur : list ascii) (s : list ascii) : list string :=
  match s with
  | [] => if cur is [] then [] else [string_of_list_ascii cur]
  | c :: s' =>
      if isspace c
      then (if cur is [] then split_go [] s'
            else string_of_list_ascii cur :: split_go [] s')
      else split_go (cur ++ [c]) s'
  end.

Definition split (s : string) : list string :=
  split_go [] (list_ascii_of_string s).

(** [s.split(sep)] for a one-character separator: always at least one
    piece, empty pieces are kept. *)
Fixpoint split_on_go (sep : ascii) (cur : list ascii) (s : list ascii)
  : list string :=
  match s with
  | [] => [string_of_list_ascii cur]
  | c :: s' =>
      if Ascii.eqb c sep
      then string_of_list_ascii cur :: split_on_go sep [] s'
      else split_on_go sep (cur ++ [c]) s'
  end.

Definition split_on (sep : ascii) (s : string) : list string :=
  split_on_go sep [] (list_ascii_of_string s).

(** [sep.join(pieces)]. *)
Fixpoint join (sep : string) (pieces : list string) : string :=
  match pieces with
  | [] => EmptyString
  | [p] => p
  | p :: ps => (p +:+ sep +:+ join sep ps)%string
  end.

End Py.

Import Py.

(** ** The file system and the values stored in example dictionaries *)

(** A corpus file as the module observes it: [os.path.getsize], the result of
    [corpus_file.read()], and the lines that iterating the file yields. A
    directory is the list of its files in [os.listdir] order. *)
Record File : Type := {
  name : string;
  getsize : Z;
  read : string;
  readlines : list string
}.

Inductive Value : Type :=
| VInt (n : Z)
| VWords (ws : list string)
| VSents (ss : list (list string))
| VLongTensor1 (xs : list Z)
| VLongTensor2 (xss : list (list Z)).

(** Module-level truncation constants (source lines 16 to 18);
    [TRUNC_OUTER_END = False] is the integer 0. *)
Definition TRUNC_OUTER : bool := true.
Definition TRUNC_OUTER_START : Z := -5.
Definition TRUNC_OUTER_END : Z := 0.

(** The outer (document level) truncation window, source lines 217 to 220 and
    481 to 486, for arbitrary values of the two constants. *)
Definition outer_truncate {A : Type} (start stop : Z) (sents : list A)
  : list A :=
  let sents := if truthy start then slice_from start sents else sents in
  if truthy stop then slice_to stop sents else sents.

(** [line = line[:truncate]] under [if truncate:]. *)
Definition truncate_line {A : Type} (truncate : Z) (line : list A) : list A :=
  if truthy truncate then slice_to truncate line else line.

(** [example_dict.update((prefix + str(j), f) for j, f in enumerate(feats))] *)
Definition update_feats (side : string) (feats : list (list string))
    (example_dict : gmap string Value) : gmap string Value :=
  foldl (fun d jf => <[(side +:+ "_feat_" +:+ pretty (fst jf))%string
                         := VWords (snd jf)]> d)
        example_dict (enumerate feats).

(** Modelled from the spec: [aeq] of onmt.Utils is not part of the sources;
    a feature-count mismatch is a fatal assertion. *)
Definition aeq (a b : Z) : result unit :=
  if a =? b then Ok tt else Raise AssertionError.

(** The bytes a list of files adds to a shard. *)
Definition total_size (files : list File) : Z :=
  foldr (fun f acc => getsize f + acc) 0 files.

(** The word list in the triple [extract_text_features] returns. *)
Definition line_words (r : list string * list (list string) * Z)
  : list string := fst (fst r).

(** ** class ShardedHierarchicalTextCorpusIterator *)

Module ShardedHierarchicalTextCorpusIterator.

(** The attributes set by [__init__]. [assoc_iter] is a reference into the
    object store; [n_feats] exists only once the [num_feats] property has run. *)
Record t : Type := {
  filelist : list File;
  line_truncate : Z;
  post_truncate : Z;
  side : string;
  shard_size : Z;
  cur_pos : Z;
  assoc_iter : option nat;
  last_pos : Z;
  file_index : Z;
  eof : bool;
  n_feats : option Z
}.

Definition set_filelist (l : list File) (self : t) : t :=
  {| filelist := l; line_truncate := line_truncate self;
     post_truncate := post_truncate self; side := side self;
     shard_size := shard_size self; cur_pos := cur_pos self;
     assoc_iter := assoc_iter self; last_pos := last_pos self;
     file_index := file_index self; eof := eof self;
     n_feats := n_feats self |}.

Definition set_cur_pos (p : Z) (self : t) : t :=
  {| filelist := filelist self; line_truncate := line_truncate self;
     post_truncate := post_truncate self; side := side self;
     shard_size := shard_size self; cur_pos := p;
     assoc_iter := assoc_iter self; last_pos := last_pos self;
     file_index := file_index self; eof := eof self;
     n_feats := n_feats self |}.

Definition set_file_index (i : Z) (self : t) : t :=
  {| filelist := filelist self; line_truncate := line_truncate self;
     post_truncate := post_truncate self; side := side self;
     shard_size := shard_size self; cur_pos := cur_pos self;
     assoc_iter := assoc_iter self; last_pos := last_pos self;
     file_index := i; eof := eof self;
     n_feats := n_feats self |}.

Definition set_eof (b : bool) (self : t) : t :=
  {| filelist := filelist self; line_truncate := line_truncate self;
     post_truncate := post_truncate self; side := side self;
     shard_size := shard_size self; cur_pos := cur_pos self;
     assoc_iter := assoc_iter self; last_pos := last_pos self;
     file_index := file_index self; eof := b;
     n_feats := n_feats self |}.

Definition set_n_feats (n : option Z) (self : t) : t :=
  {| filelist := filelist self; line_truncate := line_truncate self;
     post_truncate := post_truncate self; side := side self;
     shard_size := shard_size self; cur_pos := cur_pos self;
     assoc_iter := assoc_iter self; last_pos := last_pos self;
     file_index := file_index self; eof := eof self;
     n_feats := n |}.

(** [__init__] (lines 344 to 373); [corpus] is the listing of [corpus_path]. *)
Definition __init__ (corpus : list File) (line_truncate : Z) (side : string)
    (shard_size : Z) (assoc_iter : option nat) : t :=
  {| filelist := corpus;
     line_truncate := line_truncate;
     post_truncate := line_truncate;
     side := side;
     shard_size := shard_size;
     cur_pos := 0;
     assoc_iter := assoc_iter;
     last_pos := 0;
     file_index := -1;
     eof := false;
     n_feats := None |}.

Definition hit_end (self : t) : bool := eof self.

Section Methods.

(** [HierarchicalTextDataset.extract_text_features] is inherited from
    [ONMTDatasetBase], which is not part of the sources: it maps a token list
    to [(words, feats, n_feats)] or raises. *)
Variable extract_text_features :
  list string -> result (list string * list (list string) * Z).

(** The lines the src branch iterates over (lines 464 to 465). *)
Definition selected_lines (self : t) (corpus_file : File)
  : list (Z * string) :=
  if truthy (post_truncate self)
  then filter (fun e => fst e < post_truncate self)
              (enumerate (readlines corpus_file))
  else enumerate (readlines corpus_file).

(** One turn of the src loop body (lines 467 to 480). *)
Definition src_line (self : t) (example_dict : gmap string Value)
    (line : string) : result (gmap string Value) :=
  let line := truncate_line (line_truncate self) (split line) in
  '(words, feats, n_feats) ← extract_text_features line;
  match example_dict !! side self with
  | Some (VSents ss) =>
      let example_dict := <[side self := VSents (ss ++ [words])]> example_dict in
      Ok (if feats is [] then example_dict
          else update_feats (side self) feats example_dict)
  | _ => Raise AttributeError
  end.

Fixpoint src_lines (self : t) (example_dict : gmap string Value)
    (ls : list (Z * string)) : result (gmap string Value) :=
  match ls with
  | [] => Ok example_dict
  | (_, line) :: ls' =>
      example_dict ← src_line self example_dict line;
      src_lines self example_dict ls'
  end.

(** [_example_dict_iter] (lines 441 to 487). *)
Definition _example_dict_iter (self : t) (path : File) (index : Z)
  : result (gmap string Value) :=
  if String.eqb (side self) "tgt" then
    let text := join " " (split_on newline (read path)) in
    let line := truncate_line (line_truncate self) (split text) in
    '(words, feats, n_feats) ← extract_text_features line;
    let example_dict : gmap string Value :=
      <["indices"%string := VInt index]> (<[side self := VWords words]> ∅) in
    if feats is [] then Ok example_dict
    else
      match ShardedHierarchicalTextCorpusIterator.n_feats self with
      | None => Raise AttributeError
      | Some expected =>
          _ ← aeq expected n_feats;
          Ok (update_feats (side self) feats example_dict)
      end
  else
    let example_dict : gmap string Value :=
      <["indices"%string := VInt index]> (<[side self := VSents []]> ∅) in
    example_dict ← src_lines self example_dict (selected_lines self path);
    match example_dict !! side self with
    | Some (VSents ss) =>
        Ok (<[side self :=
                VSents (outer_truncate TRUNC_OUTER_START TRUNC_OUTER_END ss)]>
              example_dict)
    | _ => Raise AttributeError
    end.

(** The [num_feats] property (lines 425 to 439): peeks the first line of the
    first file, stores [self.n_feats] and chains the file back. The integer
    is the returned count. *)
Definition num_feats (self : t) : result Z * t :=
  match filelist self with
  | [] => (Raise StopIteration, self)
  | path :: rest =>
      let self := set_filelist rest self in
      let first := match readlines path with
                   | [] => EmptyString
                   | l :: _ => l
                   end in
      let line := truncate_line (line_truncate self) (split first) in
      match extract_text_features line with
      | Raise e => (Raise e, self)
      | Ok (_, _, n) =>
          let self := set_n_feats (Some n) self in
          let self := set_filelist (path :: filelist self) self in
          (Ok n, self)
      end
  end.

(** *** The generator [__iter__] (lines 375 to 420)

    A generator frame holds the locals that survive a [yield]:
    [iteration_index], and [next_size], which is unbound until the size
    check has run once. *)
Record Frame : Type := {
  iteration_index : Z;
  next_size : option Z
}.

Definition frame0 : Frame := {| iteration_index := -1; next_size := None |}.

(** Lines 416 to 420: add the file to the shard and yield its example. An
    exception of [_example_dict_iter] leaves the generator after the counters
    were advanced. *)
Definition emit (self : t) (fr : Frame) (path : File)
  : result (gmap string Value) * t * Frame :=
  match next_size fr with
  | None => (Raise UnboundLocalError, self, fr)
  | Some n =>
      let self := set_cur_pos (cur_pos self + n) self in
      let self := set_file_index (file_index self + 1) self in
      let fr := {| iteration_index := iteration_index fr + 1;
                   next_size := next_size fr |} in
      (_example_dict_iter self path (iteration_index fr), self, fr)
  end.

(** One resumption of the generator without associate (lines 403 to 420):
    each turn of [while True] either yields or raises. *)
Definition resume_independent (self : t) (fr : Frame)
  : result (gmap string Value) * t * Frame :=
  match filelist self with
  | [] => (Raise StopIteration, set_eof true self, fr)
  | path :: rest =>
      let self := set_filelist rest self in
      if negb (shard_size self =? 0) && (0 <=? cur_pos self) then
        let size := getsize path in
        let fr := {| iteration_index := iteration_index fr;
                     next_size := Some size |} in
        if shard_size self <=? size + cur_pos self then
          let self := set_cur_pos 0 self in
          let self := set_filelist (path :: filelist self) self in
          (Raise StopIteration, self, fr)
        else emit self fr path
      else emit self fr path
  end.

(** One resumption of the generator locked to the associate [assoc]
    (lines 385 to 399). The class never defines [self.corpus]. *)
Definition resume_associated (assoc : t) (self : t) (fr : Frame)
  : result (gmap string Value) * t * Frame :=
  if file_index self <? file_index assoc then
    match filelist self with
    | [] => (Raise AssertionError, self, fr)
    | path :: rest =>
        let self := set_filelist rest self in
        let self := set_file_index (file_index self + 1) self in
        let fr := {| iteration_index := iteration_index fr + 1;
                     next_size := next_size fr |} in
        (_example_dict_iter self path (iteration_index fr), self, fr)
    end
  else if eof assoc then (Raise AttributeError, set_eof true self, fr)
  else (Raise StopIteration, self, fr).

(** [next(gen)] on the iterator object at reference [r] of the store: the
    associate is read through the store at every resumption. *)
Definition next (store : gmap nat t) (r : nat) (fr : Frame)
  : result (gmap string Value) * gmap nat t * Frame :=
  match store !! r with
  | None => (Raise AttributeError, store, fr)
  | Some self =>
      match assoc_iter self with
      | None =>
          let '(out, self, fr) := resume_independent self fr in
          (out, <[r := self]> store, fr)
      | Some a =>
          match store !! a with
          | None => (Raise AttributeError, store, fr)
          | Some assoc =>
              let '(out, self, fr) := resume_associated assoc self fr in
              (out, <[r := self]> store, fr)
          end
      end
  end.

(** Consuming a generator until it raises: the examples yielded, the
    exception that ended it ([StopIteration] for a regular end) and the
    store. [None] only when [fuel] resumptions were not enough. *)
Fixpoint drain (fuel : nat) (store : gmap nat t) (r : nat) (fr : Frame)
  : option (list (gmap string Value) * Exn * gmap nat t) :=
  match fuel with
  | O => None
  | S fuel =>
      match next store r fr with
      | (Ok ex, store, fr) =>
          match drain fuel store r fr with
          | Some (exs, e, store) => Some (ex :: exs, e, store)
          | None => None
          end
      | (Raise e, store, _) => Some ([], e, store)
      end
  end.

(** One shard: a fresh generator from [__iter__], consumed to its end. Every
    yield takes a file off [filelist], so one more resumption than there are
    files is enough. *)
Definition __iter__ (store : gmap nat t) (r : nat)
  : option (list (gmap string Value) * Exn * gmap nat t) :=
  match store !! r with
  | None => None
  | Some self => drain (S (length (filelist self))) store r frame0
  end.

(** [zip(src_examples_iter, tgt_examples_iter)] (lines 61 to 62) on the
    generators of the iterator objects at [a] and [d]: Python 2 builds the
    list of pairs at once, asking [a] for an item, then [d], and stops at the
    first generator that raises, so [d] is not resumed once [a] has stopped.
    [StopIteration] ends the list; any other exception escapes. *)
Fixpoint zip_from (fuel : nat) (store : gmap nat t) (a d : nat)
    (fa fd : Frame)
  : option (list (gmap string Value * gmap string Value) * Exn * gmap nat t) :=
  match fuel with
  | O => None
  | S fuel =>
      match next store a fa with
      | (Raise e, store, _) => Some ([], e, store)
      | (Ok src, store, fa) =>
          match next store d fd with
          | (Raise e, store, _) => Some ([], e, store)
          | (Ok tgt, store, fd) =>
              match zip_from fuel store a d fa fd with
              | Some (pairs, e, store) => Some ((src, tgt) :: pairs, e, store)
              | None => None
              end
          end
      end
  end.

(** Both generators are fresh; every item of [a] takes a file off its
    [filelist], so one more round than it has files is enough. *)
Definition zip (store : gmap nat t) (a d : nat)
  : option (list (gmap string Value * gmap string Value) * Exn * gmap nat t) :=
  match store !! a with
  | None => None
  | Some self =>
      zip_from (S (length (filelist self))) store a d frame0 frame0
  end.

(** The attributes [_example_dict_iter] reads; iteration never writes them. *)
Definition same_config (s1 s2 : t) : Prop :=
  side s1 = side s2 /\ line_truncate s1 = line_truncate s2
  /\ post_truncate s1 = post_truncate s2 /\ n_feats s1 = n_feats s2.

(** Every file of [files] is turned into an example without an exception
    (no feature mismatch, no missing [n_feats]) under the configuration of
    [self]. *)
Definition readable (self : t) (files : list File) : Prop :=
  forall f index self', f ∈ files -> same_config self' self ->
    exists ex, _example_dict_iter self' f index = Ok ex.

End Methods.

End ShardedHierarchicalTextCorpusIterator.

(** ** Vocabularies and tensors (torchtext and torch, at their interface) *)

(** A [torchtext.vocab.Vocab]: [itos] lists the tokens by index, [stoi] is
    the default dictionary that answers 0, the unknown slot, for a token it
    does not hold. [len(vocab)] is [len(vocab.itos)]. *)
Record Vocab : Type := {
  itos : list string;
  stoi : string -> Z
}.

(** What the constructor does with a ready token list:
    [stoi.update({tok: i for i, tok in enumerate(itos)})] over the default 0. *)
Definition stoi_of_itos (l : list string) (w : string) : Z :=
  foldl (fun acc e => if String.eqb (snd e) w then fst e else acc)
        0 (enumerate l).

Definition vocab_of_itos (l : list string) : Vocab :=
  {| itos := l; stoi := stoi_of_itos l |}.

(** [torch.LongTensor(rows)] on a nested list: a tensor is rectangular, so
    rows of different lengths are refused with an exception. *)
Definition LongTensor2 (rows : list (list Z)) : result Value :=
  match rows with
  | [] => Ok (VLongTensor2 [])
  | r :: rs =>
      if forallb (fun r' => Nat.eqb (length r') (length r)) rs
      then Ok (VLongTensor2 rows)
      else Raise RuntimeError
  end.

(** Scores are exact rationals here; [scores[t][b][c]] is [entry t b c] and
    [dims] is the shape (output positions, batch, expanded vocabulary). *)
Record Tensor3 : Type := {
  dims : nat * nat * nat;
  entry : nat -> nat -> nat -> Q
}.

Definition dimB (s : Tensor3) : nat := snd (fst (dims s)).
Definition dimV (s : Tensor3) : nat := snd (dims s).

(** A torch index along the vocabulary dimension. *)
Definition index_ok (width : nat) (c : Z) : bool :=
  (0 <=? c) && (c <? Z.of_nat width).

(** One row [scores[t, b, :]] as a function of the column. *)
Definition set_col (row : nat -> Q) (c : Z) (v : Q) : nat -> Q :=
  fun c' => if Nat.eqb c' (Z.to_nat c) then v else row c'.

(** [row.index_add_(idx, src)]: [row[idx[k]] += src[k]] for every [k]. *)
Fixpoint index_add_ (row : nat -> Q) (idx : list Z) (src : list Q)
  : nat -> Q :=
  match idx, src with
  | c :: idx', v :: src' =>
      index_add_ (set_col row c (row (Z.to_nat c) + v)%Q) idx' src'
  | _, _ => row
  end.

(** [row.index_select(idx)]: a fresh copy of the selected columns. *)
Definition index_select (row : nat -> Q) (idx : list Z) : list Q :=
  map (fun c => row (Z.to_nat c)) idx.

(** [row.index_fill_(idx, v)]. *)
Definition index_fill_ (row : nat -> Q) (idx : list Z) (v : Q) : nat -> Q :=
  foldl (fun r c => set_col r c v) row idx.

Definition Qsum (l : list Q) : Q := foldr Qplus 0%Q l.

(** The sum of the entries of a row over its [width] columns. *)
Definition row_sum (width : nat) (row : nat -> Q) : Q :=
  Qsum (map row (seq 0 width)).

Record Batch : Type := {
  batch_size : nat;
  indices : list Z
}.

(** ** class HierarchicalTextDataset *)

Module HierarchicalTextDataset.

(** *** [collapse_copy_scores] (lines 111 to 138) *)

(** The fill value of line 137. *)
Definition epsilon : Q := 1 # 10000000000.

(** Lines 126 to 131: the pairs [(blank[k], fill[k])], in the order the loop
    over [range(1, len(src_vocab))] appends them. *)
Definition moves (offset : Z) (tgt_vocab src_vocab : Vocab) : list (Z * Z) :=
  omap (fun i : nat =>
          match itos src_vocab !! i with
          | Some sw =>
              let ti := stoi tgt_vocab sw in
              if ti =? 0 then None else Some (offset + Z.of_nat i, ti)
          | None => None
          end)
       (seq 1 (length (itos src_vocab) - 1)).

(** Lines 135 to 137 on one row [scores[t, b, :]]. *)
Definition collapse_row (ms : list (Z * Z)) (row : nat -> Q) : nat -> Q :=
  let blank := ms.*1 in
  let fill := ms.*2 in
  index_fill_ (index_add_ row fill (index_select row blank)) blank epsilon.

(** The body of the loop over the batch (lines 122 to 137). An index outside
    the tensor makes torch raise. *)
Definition collapse_one (tgt_vocab : Vocab) (src_vocabs : list Vocab)
    (batch : Batch) (scores : Tensor3) (b : nat) : result Tensor3 :=
  index ← getitem (indices batch) (Z.of_nat b);
  src_vocab ← getitem src_vocabs index;
  let ms := moves (len (itos tgt_vocab)) tgt_vocab src_vocab in
  if ms is [] then Ok scores
  else if negb (b <? dimB scores)%nat then Raise IndexError
  else if negb (forallb (index_ok (dimV scores)) (ms.*1 ++ ms.*2))
  then Raise RuntimeError
  else Ok {| dims := dims scores;
             entry := fun t b' =>
               if Nat.eqb b' b then collapse_row ms (entry scores t b)
               else entry scores t b' |}.

Fixpoint collapse_loop (tgt_vocab : Vocab) (src_vocabs : list Vocab)
    (batch : Batch) (scores : Tensor3) (bs : list nat) : result Tensor3 :=
  match bs with
  | [] => Ok scores
  | b :: bs' =>
      scores ← collapse_one tgt_vocab src_vocabs batch scores b;
      collapse_loop tgt_vocab src_vocabs batch scores bs'
  end.

Definition collapse_copy_scores (scores : Tensor3) (batch : Batch)
    (tgt_vocab : Vocab) (src_vocabs : list Vocab) : result Tensor3 :=
  collapse_loop tgt_vocab src_vocabs batch scores (seq 0 (batch_size batch)).

(** The local indices [i >= 1] whose token sits in shared slot [c], [c]
    not the unknown slot 0. *)
Definition sources_of (tgt_vocab src_vocab : Vocab) (c : Z) : list nat :=
  List.filter (fun i : nat =>
                 match itos src_vocab !! i with
                 | Some sw => (stoi tgt_vocab sw =? c) && negb (c =? 0)
                 | None => false
                 end)
              (seq 1 (length (itos src_vocab) - 1)).

(** The local vocabulary of batch element [b], as lines 124 and 125 find
    it. *)
Definition src_vocab_at (src_vocabs : list Vocab) (batch : Batch) (b : nat)
  : result Vocab :=
  index ← getitem (indices batch) (Z.of_nat b);
  getitem src_vocabs index.

(** The shapes agree for batch element [b]: it has a local vocabulary, the
    score tensor has a column [b] and room for the shared vocabulary followed
    by the local one, and the shared vocabulary sends every local token to
    one of its own slots. *)
Definition collapsible_at (scores : Tensor3) (batch : Batch)
    (tgt_vocab : Vocab) (src_vocabs : list Vocab) (b : nat) : bool :=
  match src_vocab_at src_vocabs batch b with
  | Ok src_vocab =>
      (b <? dimB scores)%nat
      && (length (itos tgt_vocab) + length (itos src_vocab)
          <=? dimV scores)%nat
      && forallb (fun sw => (0 <=? stoi tgt_vocab sw)
                            && (stoi tgt_vocab sw <? len (itos tgt_vocab)))
                 (itos src_vocab)
  | Raise _ => false
  end.

Definition collapsible (scores : Tensor3) (batch : Batch)
    (tgt_vocab : Vocab) (src_vocabs : list Vocab) : bool :=
  forallb (collapsible_at scores batch tgt_vocab src_vocabs)
          (seq 0 (batch_size batch)).

(** What the row of batch element [b] becomes. *)
Definition collapsed_row (tgt_vocab : Vocab) (src_vocabs : list Vocab)
    (batch : Batch) (b : nat) (row : nat -> Q) : nat -> Q :=
  match src_vocab_at src_vocabs batch b with
  | Ok src_vocab =>
      collapse_row (moves (len (itos tgt_vocab)) tgt_vocab src_vocab) row
  | Raise _ => row
  end.

(** *** The dataset object and its construction *)

Section Dataset.

(** Names the module imports from code that is not part of the sources:
    the reserved tokens of onmt.io.DatasetBase, the torchtext vocabulary
    constructor (applied to the token multiset, given as the token list, and
    the specials), torchtext fields with their [preprocess], and the
    inherited [extract_text_features]. *)
Variables UNK_WORD PAD_WORD : string.
Variable Vocab_new : list string -> list string -> Vocab.
Variable Field : Type.
Variable preprocess : Field -> Value -> Value.
Variable extract_text_features :
  list string -> result (list string * list (list string) * Z).

Record t : Type := {
  data_type : string;
  src_len : option Z;
  src_vocabs : list Vocab;
  n_src_feats : Z;
  n_tgt_feats : Z;
  examples : list (gmap string Value);
  fields : list (string * option Field)
}.

(** [len(v)]. *)
Definition py_len (v : Value) : result Z :=
  match v with
  | VInt _ => Raise TypeError
  | VWords ws => Ok (len ws)
  | VSents ss => Ok (len ss)
  | VLongTensor1 xs => Ok (len xs)
  | VLongTensor2 xss => Ok (len xss)
  end.

(** [len(example.k)] on an example object. *)
Definition attr_len (example : gmap string Value) (k : string) : result Z :=
  match example !! k with
  | Some v => py_len v
  | None => Raise AttributeError
  end.

(** What [for seq in src] and [for w in seq] run over: a document is a
    list of sentences; the tokens of a flat token list are iterated
    character by character. *)
Definition sentences_of (v : Value) : result (list (list string)) :=
  match v with
  | VSents ss => Ok ss
  | VWords ws =>
      Ok (map (fun w => map (fun c => String c EmptyString)
                            (list_ascii_of_string w)) ws)
  | _ => Raise TypeError
  end.

Definition words_of (v : Value) : result (list string) :=
  match v with
  | VWords ws => Ok ws
  | _ => Raise TypeError
  end.

(** The body of the loop of [_dynamic_dict] (lines 319 to 332), with
    [self.src_vocabs] passed through. The vocabulary is appended before the
    tensors are built. *)
Definition dynamic_dict_step (src_vocabs : list Vocab)
    (example : gmap string Value)
  : result (gmap string Value) * list Vocab :=
  match example !! "src"%string with
  | None => (Raise KeyError, src_vocabs)
  | Some v =>
      match sentences_of v with
      | Raise e => (Raise e, src_vocabs)
      | Ok src =>
          let src_vocab := Vocab_new (concat src) [UNK_WORD; PAD_WORD] in
          let src_vocabs := src_vocabs ++ [src_vocab] in
          match LongTensor2 (map (map (stoi src_vocab)) src) with
          | Raise e => (Raise e, src_vocabs)
          | Ok src_map =>
              let example := <["src_map"%string := src_map]> example in
              match example !! "tgt"%string with
              | None => (Ok example, src_vocabs)
              | Some tv =>
                  match words_of tv with
                  | Raise e => (Raise e, src_vocabs)
                  | Ok tgt =>
                      let mask :=
                        VLongTensor1 ([0] ++ map (stoi src_vocab) tgt ++ [0]) in
                      (Ok (<["alignment"%string := mask]> example), src_vocabs)
                  end
              end
          end
      end
  end.

(** [_dynamic_dict] consumed to its end: the examples yielded, the exception
    that stopped it if one did, and [self.src_vocabs]. *)
Fixpoint _dynamic_dict (src_vocabs : list Vocab)
    (examples_iter : list (gmap string Value))
  : list (gmap string Value) * option Exn * list Vocab :=
  match examples_iter with
  | [] => ([], None, src_vocabs)
  | example :: rest =>
      match dynamic_dict_step src_vocabs example with
      | (Raise e, src_vocabs) => ([], Some e, src_vocabs)
      | (Ok example, src_vocabs) =>
          let '(out, e, src_vocabs) := _dynamic_dict src_vocabs rest in
          (example :: out, e, src_vocabs)
      end
  end.

(** Modelled from the spec: [_join_dicts] of ONMTDatasetBase joins the source
    and the target record of one example; a key of the later one wins. *)
Definition _join_dicts (src tgt : gmap string Value) : gmap string Value :=
  tgt ∪ src.

(** Modelled from the spec: [_construct_example_fromlist] of ONMTDatasetBase
    builds the example object, one attribute per field name, preprocessed by
    its field when there is one. *)
Definition _construct_example_fromlist (ex_values : list Value)
    (out_fields : list (string * option Field)) : gmap string Value :=
  list_to_map
    (zip_with (fun kf v => (fst kf, match snd kf with
                                    | Some f => preprocess f v
                                    | None => v
                                    end))
              out_fields ex_values).

(** [filter_pred] (lines 92 to 94); [and] does not look at [tgt] once the
    source test has failed. *)
Definition filter_pred (src_seq_length tgt_seq_length : Z)
    (example : gmap string Value) : result bool :=
  n ← attr_len example "src";
  if (0 <? n) && (n <=? src_seq_length) then
    m ← attr_len example "tgt";
    Ok ((0 <? m) && (m <=? tgt_seq_length))
  else Ok false.

(** Modelled from the spec: the constructor of the torchtext dataset keeps
    the examples that satisfy the predicate it is given. *)
Fixpoint Dataset_filter (pred : gmap string Value -> result bool)
    (exs : list (gmap string Value)) : result (list (gmap string Value)) :=
  match exs with
  | [] => Ok []
  | ex :: exs' =>
      keep ← pred ex;
      kept ← Dataset_filter pred exs';
      Ok (if keep : bool then ex :: kept else kept)
  end.

(** Lines 60 to 87: the joined, possibly extended examples, materialised
    against the field set of the first one. Returns the examples, the fields
    and [self.src_vocabs]. *)
Definition build_examples (fields : gmap string Field)
    (src_examples_iter : list (gmap string Value))
    (tgt_examples_iter : option (list (gmap string Value)))
    (dynamic_dict : bool)
  : result (list (gmap string Value) * list (string * option Field)
            * list Vocab) :=
  let examples_iter :=
    match tgt_examples_iter with
    | Some tgts => zip_with _join_dicts src_examples_iter tgts
    | None => src_examples_iter
    end in
  let '(examples_iter, stopped, src_vocabs) :=
    if dynamic_dict then _dynamic_dict [] examples_iter
    else (examples_iter, None, []) in
  match examples_iter, stopped with
  | [], Some e => Raise e
  | [], None => Raise StopIteration
  | ex :: _, _ =>
      let keys := (map_to_list ex).*1 in
      let out_fields := map (fun k => (k, fields !! k)) keys in
      out_examples ← traverse
        (fun ex : gmap string Value =>
           ex_values ← traverse (fun k => match ex !! k with
                                          | Some v => Ok v
                                          | None => Raise KeyError
                                          end) keys;
           let example := _construct_example_fromlist ex_values out_fields in
           _ ← attr_len example "src";
           Ok example)
        examples_iter;
      match stopped with
      | Some e => Raise e
      | None => Ok (out_examples, out_fields, src_vocabs)
      end
  end.

(** [__init__] (lines 41 to 101). Line 96 selects [filter_pred] or the
    constant predicate, line 100 passes [lambda(x):True] to the parent
    constructor. *)
Definition __init__ (fields : gmap string Field)
    (src_examples_iter : list (gmap string Value))
    (tgt_examples_iter : option (list (gmap string Value)))
    (num_src_feats num_tgt_feats : Z)
    (src_seq_length tgt_seq_length : Z)
    (dynamic_dict use_filter_pred : bool) : result t :=
  '(out_examples, out_fields, src_vocabs) ←
    build_examples fields src_examples_iter tgt_examples_iter dynamic_dict;
  let filter_pred : gmap string Value -> result bool :=
    if use_filter_pred then filter_pred src_seq_length tgt_seq_length
    else fun _ => Ok true in
  kept ← Dataset_filter (fun _ => Ok true) out_examples;
  Ok {| data_type := "hierarchicalText";
        src_len := if src_seq_length =? 0 then None else Some src_seq_length;
        src_vocabs := src_vocabs;
        n_src_feats := num_src_feats;
        n_tgt_feats := num_tgt_feats;
        examples := kept;
        fields := out_fields |}.

(** What the documented behaviour of [use_filter_pred] asks to retain. *)
Definition spec_retained (src_seq_length tgt_seq_length : Z)
    (use_filter_pred : bool) (out_examples : list (gmap string Value))
  : result (list (gmap string Value)) :=
  if use_filter_pred
  then Dataset_filter (filter_pred src_seq_length tgt_seq_length) out_examples
  else Ok out_examples.

(** *** [read_text_dir] (lines 170 to 221) *)

(** The locals of the generator that are read before they are written on
    some path: [line] and [n_feats]. *)
Record ReadFrame : Type := {
  line : option (list string);
  n_feats : option Z
}.

(** The src loop of lines 201 to 216 over the remaining lines of a file. *)
Fixpoint read_src_lines (truncate : Z) (side : string)
    (example_dict : gmap string Value) (fr : ReadFrame) (ls : list string)
  : result (gmap string Value) * ReadFrame :=
  match ls with
  | [] => (Ok example_dict, fr)
  | l :: ls' =>
      let toks := truncate_line truncate (split l) in
      let fr := {| line := Some toks; n_feats := n_feats fr |} in
      match extract_text_features toks with
      | Raise e => (Raise e, fr)
      | Ok (words, feats, n) =>
          let fr := {| line := Some toks; n_feats := Some n |} in
          match example_dict !! side with
          | Some (VSents ss) =>
              let example_dict :=
                <[side := VSents (ss ++ [words])]> example_dict in
              let example_dict :=
                if feats is [] then example_dict
                else update_feats side feats example_dict in
              read_src_lines truncate side example_dict fr ls'
          | _ => (Raise AttributeError, fr)
          end
      end
  end.

(** One turn of the loop over the files (lines 183 to 221). In the tgt
    branch line 187 reads [line] where line 186 has bound [text]. *)
Definition read_text_file (truncate : Z) (side : string) (i : Z)
    (corpus_file : File) (fr : ReadFrame)
  : result (gmap string Value * Z) * ReadFrame :=
  if String.eqb side "tgt" then
    let text := join " " (split_on newline (read corpus_file)) in
    match line fr with
    | None => (Raise UnboundLocalError, fr)
    | Some _ => (Raise AttributeError, fr)
    end
  else
    let example_dict : gmap string Value :=
      <["indices"%string := VInt i]> (<[side := VSents []]> ∅) in
    match read_src_lines truncate side example_dict fr
            (readlines corpus_file) with
    | (Raise e, fr) => (Raise e, fr)
    | (Ok example_dict, fr) =>
        match example_dict !! side with
        | Some (VSents ss) =>
            let example_dict :=
              <[side := VSents
                  (outer_truncate TRUNC_OUTER_START TRUNC_OUTER_END ss)]>
                example_dict in
            match n_feats fr with
            | None => (Raise UnboundLocalError, fr)
            | Some n => (Ok (example_dict, n), fr)
            end
        | _ => (Raise AttributeError, fr)
        end
    end.

Fixpoint read_text_files (truncate : Z) (side : string)
    (files : list (Z * File)) (fr : ReadFrame)
  : list (gmap string Value * Z) * Exn :=
  match files with
  | [] => ([], StopIteration)
  | (i, corpus_file) :: rest =>
      match read_text_file truncate side i corpus_file fr with
      | (Raise e, _) => ([], e)
      | (Ok y, fr) =>
          let '(ys, e) := read_text_files truncate side rest fr in
          (y :: ys, e)
      end
  end.

(** The generator consumed to its end: what it yielded and the exception
    that ended it; [path] is the listing of the directory. *)
Definition read_text_dir (path : list File) (truncate : Z) (side : string)
  : list (gmap string Value * Z) * Exn :=
  read_text_files truncate side (enumerate path)
    {| line := None; n_feats := None |}.

(** The sentences [read_text_dir] reads from a source file before the outer
    truncation: every line, cut to [truncate] tokens. *)
Definition file_sentences (truncate : Z) (corpus_file : File)
  : result (list (list string)) :=
  map line_words
    <$> traverse (fun l => extract_text_features
                             (truncate_line truncate (split l)))
                 (readlines corpus_file).

(** The stream of joined examples of lines 60 to 64. *)
Definition joined_examples (src_examples_iter : list (gmap string Value))
    (tgt_examples_iter : option (list (gmap string Value)))
  : list (gmap string Value) :=
  match tgt_examples_iter with
  | Some tgts => zip_with _join_dicts src_examples_iter tgts
  | None => src_examples_iter
  end.

(** What one source file, paired with its position, contributes to the
    output of [read_text_dir]. *)
Definition src_record (truncate : Z) (if_ : Z * File)
    (rec : gmap string Value * Z) : Prop :=
  exists ss,
    file_sentences truncate (snd if_) = Ok ss
    /\ fst rec !! "src"%string
       = Some (VSents (outer_truncate TRUNC_OUTER_START TRUNC_OUTER_END ss))
    /\ fst rec !! "indices"%string = Some (VInt (fst if_)).

(** *** [make_text_examples_nfeats_tpl] (lines 140 to 168)

    [path] is [None] or the listing of the directory. The iterator returned
    is given consumed to its end: its examples and the exception that ends
    it. *)
Definition make_text_examples_nfeats_tpl (path : option (list File))
    (truncate : Z) (side : string)
  : result (option (list (gmap string Value) * Exn) * Z) :=
  if negb (String.eqb side "src" || String.eqb side "tgt")
  then Raise AssertionError
  else
    match path with
    | None => Ok (None, 0)
    | Some dir =>
        match read_text_dir dir truncate side with
        | ([], e) => Raise e
        | (first_ex :: rest, e) =>
            let num_feats := snd first_ex in
            Ok (Some (map fst (first_ex :: rest), e), num_feats)
        end
    end.

(** [cf.readline()] on a file just opened: its first line, the empty string
    when there is none. *)
Definition readline (f : File) : string :=
  match readlines f with
  | [] => EmptyString
  | l :: _ => l
  end.

(** [get_num_features] (lines 294 to 314); [corpus_file] is the listing of
    the directory. *)
Definition get_num_features (corpus_file : list File) (side : string)
  : result Z :=
  f ← getitem corpus_file 0;
  '(_, _, num_feats) ← extract_text_features (split (readline f));
  Ok num_feats.

(** [sort_key] (lines 103 to 109): a pair when the example has a target,
    the source length alone otherwise. *)
Definition sort_key (ex : gmap string Value) : result (Z * option Z) :=
  match ex !! "tgt"%string with
  | Some tv =>
      n ← attr_len ex "src";
      m ← py_len tv;
      Ok (n, Some m)
  | None =>
      n ← attr_len ex "src";
      Ok (n, None)
  end.

End Dataset.

(** *** The postprocessing hooks of [get_fields] (lines 261 to 282)

    A batch column is the list of indices of one example. The tensors built
    are given by their shape and their entries. *)





End HierarchicalTextDataset.

Module Sharded := ShardedHierarchicalTextCorpusIterator.
Module Dataset := HierarchicalTextDataset.

(** ** Concrete corpora used in the examples below *)

Module Samples.

(** An extractor for tokens that carry no feature channel: every token is
    its own word. *)
Definition no_features (tokens : list string)
  : result (list string * list (list string) * Z) :=
  Ok (tokens, [], if tokens is [] then -1 else 0).

Definition mkfile (n : string) (size : Z) (ls : list string) : File :=
  {| name := n; getsize := size;
     read := join (String newline EmptyString) ls; readlines := ls |}.

(** The two source documents and two target documents of the end-to-end
    scenario of the specification. *)
Definition src_dir : list File :=
  [mkfile "A" 17 ["the cat"; "sat down"]; mkfile "B" 10 ["a dog ran"]].

Definition tgt_dir : list File :=
  [mkfile "A" 8 ["le chat"]; mkfile "B" 9 ["un chien"]].

(** A document of seven one-word sentences. *)
Definition seven : list (list string) :=
  [["s1"]; ["s2"]; ["s3"]; ["s4"]; ["s5"]; ["s6"]; ["s7"]].

Definition long_file : File :=
  mkfile "L" 21 ["s1"; "s2"; "s3"; "s4"; "s5"; "s6"; "s7"].

(** One joined example: a source document of seven sentences with a target
    of two words. *)
Definition src_example : gmap string Value :=
  <["indices"%string := VInt 0]> (<["src"%string := VSents seven]> ∅).

Definition tgt_example : gmap string Value :=
  <["indices"%string := VInt 0]>
    (<["tgt"%string := VWords ["le"; "chat"]]> ∅).

Definition joined_example : gmap string Value :=
  <["indices"%string := VInt 0]>
    (<["tgt"%string := VWords ["le"; "chat"]]>
       (<["src"%string := VSents seven]> ∅)).

(** Fields that leave every value as it is. *)
Definition raw_field (_ : unit) (v : Value) : Value := v.

(** A shared vocabulary of two words after the unknown slot, one local
    vocabulary that shares the word [a], and one row of scores over the seven
    columns of the expanded vocabulary. *)
Definition tgt_vocab : Vocab := vocab_of_itos ["<unk>"; "a"; "b"].

Definition src_vocab : Vocab := vocab_of_itos ["<unk>"; "<blank>"; "a"; "z"].

Definition one_batch : Batch := {| batch_size := 1; indices := [0] |}.

Definition scores : Tensor3 :=
  {| dims := (1, 1, 7)%nat;
     entry := fun _ _ c => (Z.of_nat c + 1) # 1 |}.

(** The source iterator once it has emitted both files and hit the end,
    with a fresh target iterator locked to it; and the same with a target
    directory that holds one file only. *)
Definition finished_src : Sharded.t :=
  Sharded.set_eof true
    (Sharded.set_file_index 1
       (Sharded.set_filelist [] (Sharded.__init__ src_dir 0 "src" 20 None))).

Definition caught_up_store : gmap nat Sharded.t :=
  <[1%nat := Sharded.__init__ tgt_dir 0 "tgt" 0 (Some 0%nat)]>
    {[0%nat := finished_src]}.

Definition short_tgt_store : gmap nat Sharded.t :=
  <[1%nat := Sharded.__init__ (take 1 tgt_dir) 0 "tgt" 0 (Some 0%nat)]>
    {[0%nat := finished_src]}.

(** A document of two sentences of two words with its target. *)
Definition rect_example : gmap string Value :=
  <["indices"%string := VInt 0]>
    (<["tgt"%string := VWords ["le"; "chat"]]>
       (<["src"%string := VSents [["the"; "cat"]; ["sat"; "down"]]]> ∅)).

End Samples.

(** * Properties *)

(** ** Python lists *)

Section PyFacts.
Context {A : Type}.
Implicit Types l : list A.

Lemma len_nonneg l : 0 <= len l.
Proof. unfold len. lia. Qed.

Lemma slice_from_negative (s : Z) l :
  s < 0 -> slice_from s l = drop (length l - Z.to_nat (- s)) l.
Proof.
  intros Hs. unfold slice_from, len.
  destruct (Z.ltb_spec s 0) as [_|?]; [|lia].
  f_equal. lia.
Qed.

Lemma outer_truncate_negative_start (s : Z) l :
  s < 0 ->
  outer_truncate s TRUNC_OUTER_END l = drop (length l - Z.to_nat (- s)) l.
Proof.
  intros Hs. unfold outer_truncate, TRUNC_OUTER_END, truthy. simpl.
  destruct (Z.eqb_spec s 0) as [?|_]; [lia|]. simpl.
  by apply slice_from_negative.
Qed.

Lemma enumerate_shift_filter (pt : Z) l (k : nat) :
  (filter (fun e : Z * A => fst e < pt)
          (imap (fun i x => (Z.of_nat (k + i), x)) l)).*2
  = take (Z.to_nat pt - k) l.
Proof.
  revert k. induction l as [|x l IH]; intros k.
  - by rewrite take_nil.
  - rewrite imap_cons. rewrite filter_cons. simpl.
    assert (Heq : imap ((fun i x0 => (Z.of_nat (k + i), x0)) ∘ S) l
                  = imap (fun i x0 => (Z.of_nat (S k + i), x0)) l).
    { apply imap_ext. intros i y _. simpl. do 2 f_equal. lia. }
    rewrite Heq.
    destruct (decide (Z.of_nat (k + 0) < pt)) as [Hlt|Hge].
    + rewrite fmap_cons, IH. simpl.
      replace (Z.to_nat pt - k)%nat with (S (Z.to_nat pt - S k)) by lia.
      done.
    + rewrite IH.
      replace (Z.to_nat pt - k)%nat with 0%nat by lia.
      replace (Z.to_nat pt - S k)%nat with 0%nat by lia.
      by rewrite take_0.
Qed.

Lemma enumerate_snd l : (enumerate l).*2 = l.
Proof.
  unfold enumerate. rewrite fmap_imap.
  induction l as [|x l IH] using rev_ind; [done|].
  rewrite imap_app. simpl. by rewrite IH.
Qed.

End PyFacts.

(** ** Outer truncation *)

(** C8, amended: with a negative start offset [s] and no end offset, the
    window keeps the last [|s|] sentences, so a document of [m] sentences
    comes out with [min(m, |s|)] sentences. *)
Theorem outer_truncate_suffix_count {A : Type} (sents : list A) (s : Z) :
  s < 0 ->
  outer_truncate s TRUNC_OUTER_END sents
    = drop (length sents - Z.to_nat (Z.abs s)) sents
  /\ len (outer_truncate s TRUNC_OUTER_END sents)
     = Z.min (len sents) (Z.abs s).
Proof.
  intros Hs. rewrite outer_truncate_negative_start by done.
  replace (Z.abs s) with (- s) by lia. split; [done|].
  unfold len. rewrite length_drop. lia.
Qed.

Lemma outer_truncate_suffix_count_witness :
  -5 < 0
  /\ len (outer_truncate (-5) TRUNC_OUTER_END Samples.seven)
     = Z.min (len Samples.seven) (Z.abs (-5)).
Proof.
  split; [lia|]. apply (outer_truncate_suffix_count Samples.seven (-5)). lia.
Defined.

(** C8 as stated fails: seven sentences under the module's start offset -5
    leave five sentences, not [min(7, 7 - 5) = 2]. *)
Lemma outer_truncate_not_complement :
  Sharded._example_dict_iter Samples.no_features
    (Sharded.__init__ [Samples.long_file] 0 "src" 100 None)
    Samples.long_file 0
  = Ok (<["indices"%string := VInt 0]>
          (<["src"%string :=
               VSents (outer_truncate TRUNC_OUTER_START TRUNC_OUTER_END
                         Samples.seven)]> ∅))
  /\ len (outer_truncate TRUNC_OUTER_START TRUNC_OUTER_END Samples.seven) = 5
  /\ len (outer_truncate TRUNC_OUTER_START TRUNC_OUTER_END Samples.seven)
     <> Z.min (len Samples.seven)
              (len Samples.seven - Z.abs TRUNC_OUTER_START).
Proof.
  split; [by vm_compute|]. split; [reflexivity|]. vm_compute. discriminate.
Qed.

(** ** Reading one source document *)

Section ReadSource.

Import ShardedHierarchicalTextCorpusIterator.

Variable extract_text_features :
  list string -> result (list string * list (list string) * Z).

Lemma feat_key_not_src (j : Z) :
  ("src" +:+ "_feat_" +:+ pretty j)%string <> "src"%string.
Proof. simpl. discriminate. Qed.

Lemma feat_key_not_indices (j : Z) :
  ("src" +:+ "_feat_" +:+ pretty j)%string <> "indices"%string.
Proof. simpl. discriminate. Qed.

Lemma update_feats_lookup_other (side k : string) (feats : list (list string))
    (d : gmap string Value) :
  (forall j : Z, (side +:+ "_feat_" +:+ pretty j)%string <> k) ->
  update_feats side feats d !! k = d !! k.
Proof.
  intros Hk. unfold update_feats.
  generalize (enumerate feats). intros l. revert d.
  induction l as [|[j f] l IH]; intros d; simpl; [done|].
  rewrite IH. by rewrite lookup_insert_ne.
Qed.

Lemma src_lines_spec (self : t) (ls : list (Z * string))
    (d : gmap string Value) (ss : list (list string)) :
  side self = "src"%string ->
  d !! "src"%string = Some (VSents ss) ->
  match traverse (fun l => extract_text_features
                             (truncate_line (line_truncate self) (split l)))
                 ls.*2 with
  | Ok rs =>
      exists d', src_lines extract_text_features self d ls = Ok d'
        /\ d' !! "src"%string = Some (VSents (ss ++ map line_words rs))
        /\ d' !! "indices"%string = d !! "indices"%string
  | Raise e => src_lines extract_text_features self d ls = Raise e
  end.
Proof.
  intros Hside. revert d ss.
  induction ls as [|[j l] ls IH]; intros d ss Hd; simpl.
  - exists d. by rewrite app_nil_r.
  - unfold src_line. rewrite Hside.
    destruct (extract_text_features _) as [[[words feats] n]|e]; simpl; [|done].
    rewrite Hd.
    set (d1 := if feats is [] then <["src"%string := VSents (ss ++ [words])]> d
               else update_feats "src" feats
                      (<["src"%string := VSents (ss ++ [words])]> d)).
    assert (Hd1 : d1 !! "src"%string = Some (VSents (ss ++ [words]))).
    { subst d1. destruct feats.
      - by rewrite lookup_insert_eq.
      - rewrite update_feats_lookup_other by apply feat_key_not_src.
        by rewrite lookup_insert_eq. }
    assert (Hi1 : d1 !! "indices"%string = d !! "indices"%string).
    { subst d1. destruct feats.
      - by rewrite lookup_insert_ne.
      - rewrite update_feats_lookup_other by apply feat_key_not_indices.
        by rewrite lookup_insert_ne. }
    specialize (IH d1 _ Hd1).
    destruct (traverse _ _) as [rs|e]; simpl.
    + destruct IH as (d' & Hrun & Hsrc & Hidx). exists d'.
      split; [done|]. split; [|congruence].
      rewrite Hsrc. by rewrite <- app_assoc.
    + done.
Qed.

Lemma selected_lines_kept (self : t) (f : File) :
  0 <= post_truncate self ->
  (selected_lines self f).*2
  = if post_truncate self =? 0 then readlines f
    else take (Z.to_nat (post_truncate self)) (readlines f).
Proof.
  intros Hpt. unfold selected_lines, truthy.
  destruct (Z.eqb_spec (post_truncate self) 0) as [Hz|Hnz]; simpl.
  - apply enumerate_snd.
  - unfold enumerate.
    pose proof (enumerate_shift_filter (post_truncate self) (readlines f) 0)
      as H.
    simpl in H. rewrite H. f_equal. lia.
Qed.

(** C10: [__init__] sets [post_truncate] to [line_truncate]; in src mode a
    nonzero [line_truncate] keeps only the lines of enumerate index below it,
    so at most [line_truncate] sentences are read, and all of them when it is
    0; the outer truncation window is applied to the sentences read. *)
Theorem post_truncate_caps_lines (self : t) (f : File) (index : Z) :
  side self = "src"%string ->
  post_truncate self = line_truncate self ->
  0 <= line_truncate self ->
  let kept := if line_truncate self =? 0 then readlines f
              else take (Z.to_nat (line_truncate self)) (readlines f) in
  (forall corpus n sd sz a,
      post_truncate (__init__ corpus n sd sz a)
      = line_truncate (__init__ corpus n sd sz a))
  /\ (selected_lines self f).*2 = kept
  /\ (line_truncate self <> 0 -> len kept <= line_truncate self)
  /\ match traverse (fun l => extract_text_features
                               (truncate_line (line_truncate self) (split l)))
                    kept with
     | Ok rs =>
         exists ex,
           _example_dict_iter extract_text_features self f index = Ok ex
           /\ ex !! "src"%string
              = Some (VSents (outer_truncate TRUNC_OUTER_START TRUNC_OUTER_END
                                (map line_words rs)))
     | Raise e =>
         _example_dict_iter extract_text_features self f index = Raise e
     end.
Proof.
  intros Hside Hpt Hlt kept.
  assert (Hsel : (selected_lines self f).*2 = kept).
  { rewrite selected_lines_kept by lia. by rewrite Hpt. }
  split; [done|]. split; [done|]. split.
  - intros Hnz. subst kept. unfold len.
    destruct (Z.eqb_spec (line_truncate self) 0); [done|].
    rewrite length_take. lia.
  - rewrite <- Hsel. unfold _example_dict_iter. rewrite Hside. simpl.
    pose proof (src_lines_spec self (selected_lines self f)
      (<["indices"%string := VInt index]> (<["src"%string := VSents []]> ∅))
      [] Hside) as Hrun.
    specialize (Hrun eq_refl).
    destruct (traverse _ _) as [rs|e].
    + destruct Hrun as (d' & -> & Hsrc & _). simpl. rewrite Hsrc.
      eexists. split; [done|]. by rewrite lookup_insert_eq.
    + by rewrite Hrun.
Qed.

End ReadSource.

Lemma post_truncate_caps_lines_witness :
  len (take 3 (readlines Samples.long_file)) <= 3
  /\ exists ex,
      Sharded._example_dict_iter Samples.no_features
        (Sharded.__init__ [Samples.long_file] 3 "src" 100 None)
        Samples.long_file 0 = Ok ex
      /\ ex !! "src"%string = Some (VSents [["s1"]; ["s2"]; ["s3"]]).
Proof.
  pose proof (post_truncate_caps_lines Samples.no_features
                (Sharded.__init__ [Samples.long_file] 3 "src" 100 None)
                Samples.long_file 0 eq_refl eq_refl ltac:(simpl; lia))
    as (_ & _ & Hcap & Hex).
  split; [apply Hcap; simpl; lia|]. exact Hex.
Defined.

(** ** The generator without associate *)

Section Independent.

Import ShardedHierarchicalTextCorpusIterator.

Variable extract_text_features :
  list string -> result (list string * list (list string) * Z).

Lemma next_independent (self : t) (r : nat) (fr : Frame) :
  assoc_iter self = None ->
  next extract_text_features {[r := self]} r fr
  = let '(out, self', fr') :=
      resume_independent extract_text_features self fr in
    (out, {[r := self']}, fr').
Proof.
  intros Hnone. unfold next. rewrite lookup_singleton_eq, Hnone.
  destruct (resume_independent _ _ _) as [[out self'] fr'].
  by rewrite insert_singleton_eq.
Qed.

(** C5: with [shard_size = 0] the size check of lines 410 to 415 is skipped,
    [next_size] is never bound, and line 417 raises on the first file of any
    directory that has one; no example is yielded. *)
Theorem zero_shard_size_unbound_local (f : File) (rest : list File)
    (line_truncate : Z) (side : string) :
  __iter__ extract_text_features
    {[0%nat := __init__ (f :: rest) line_truncate side 0 None]} 0%nat
  = Some ([], UnboundLocalError,
          {[0%nat := set_filelist rest
                       (__init__ (f :: rest) line_truncate side 0 None)]}).
Proof.
  unfold __iter__. rewrite lookup_singleton_eq.
  cbn [drain length filelist __init__].
  by rewrite next_independent.
Qed.

(** C1: a file whose size alone reaches the budget is never emitted. At the
    start of a shard ([cur_pos = 0]) the test [cur_pos >= 0] of line 410 still
    holds, the file is pushed back, and the shard ends empty with the
    iterator exactly as it was: every later shard repeats this. *)
Theorem oversized_file_stalls (self : t) (f : File) (rest : list File) :
  assoc_iter self = None ->
  filelist self = f :: rest ->
  cur_pos self = 0 ->
  0 < shard_size self ->
  shard_size self <= getsize f ->
  __iter__ extract_text_features {[0%nat := self]} 0%nat
  = Some ([], StopIteration, {[0%nat := self]}).
Proof.
  intros Hnone Hfiles Hpos HB Hbig.
  unfold __iter__. rewrite lookup_singleton_eq, Hfiles.
  cbn [drain length]. rewrite next_independent by done.
  unfold resume_independent. rewrite Hfiles. cbn [shard_size cur_pos set_filelist].
  rewrite Hpos.
  destruct (Z.eqb_spec (shard_size self) 0) as [?|_]; [lia|].
  cbn [negb andb Z.leb]. simpl (0 <=? 0).  cbn [andb].
  destruct (Z.leb_spec (shard_size self) (getsize f + 0)) as [_|?]; [|lia].
  destruct self; simpl in *; subst. reflexivity.
Qed.

End Independent.

Lemma oversized_file_stalls_witness :
  Sharded.__iter__ Samples.no_features
    {[0%nat := Sharded.__init__ [Samples.mkfile "big" 10 ["a b c d e"]]
                 0 "src" 5 None]} 0%nat
  = Some ([], StopIteration,
          {[0%nat := Sharded.__init__ [Samples.mkfile "big" 10 ["a b c d e"]]
                       0 "src" 5 None]}).
Proof.
  apply (oversized_file_stalls Samples.no_features _
           (Samples.mkfile "big" 10 ["a b c d e"]) []);
    simpl; (reflexivity || lia).
Defined.

(** ** Reading one target document *)

Section Flatten.

Lemma list_ascii_of_string_append (a b : string) :
  list_ascii_of_string (a +:+ b)
  = list_ascii_of_string a ++ list_ascii_of_string b.
Proof. induction a as [|c a IH]; simpl; [done|]. by rewrite IH. Qed.

Lemma split_on_go_nonempty (sep : ascii) (cur s : list ascii) :
  split_on_go sep cur s <> [].
Proof.
  revert cur. induction s as [|c s IH]; intros cur; simpl; [done|].
  destruct (Ascii.eqb c sep); [done|apply IH].
Qed.

Lemma join_cons (sep p : string) (ps : list string) :
  ps <> [] -> join sep (p :: ps) = (p +:+ sep +:+ join sep ps)%string.
Proof. by destruct ps. Qed.

Lemma join_split_on_newline (cur s : list ascii) :
  list_ascii_of_string (join " " (split_on_go newline cur s))
  = cur ++ map blanked s.
Proof.
  revert cur. induction s as [|c s IH]; intros cur; simpl.
  - rewrite list_ascii_of_string_of_list_ascii. by rewrite app_nil_r.
  - unfold blanked at 1. destruct (Ascii.eqb c newline).
    + rewrite join_cons by apply split_on_go_nonempty.
      rewrite !list_ascii_of_string_append, IH.
      by rewrite list_ascii_of_string_of_list_ascii.
    + rewrite IH. by rewrite <- app_assoc.
Qed.

Lemma split_go_blanked (cur s : list ascii) :
  split_go cur (map blanked s) = split_go cur s.
Proof.
  revert cur. induction s as [|c s IH]; intros cur; [done|].
  cbn [map split_go].
  assert (Hsp : isspace (blanked c) = isspace c).
  { unfold blanked. by destruct (Ascii.eqb_spec c newline) as [->|_]. }
  rewrite Hsp. destruct (isspace c) eqn:Hc.
  - by rewrite !IH.
  - assert (Hb : blanked c = c).
    { unfold blanked. destruct (Ascii.eqb_spec c newline) as [->|_]; [|done].
      by vm_compute in Hc. }
    by rewrite Hb, IH.
Qed.

(** Flattening the line breaks first does not change the token stream. *)
Lemma split_flattened (text : string) :
  split (join " " (split_on newline text)) = split text.
Proof.
  unfold split, split_on. rewrite join_split_on_newline. simpl.
  apply split_go_blanked.
Qed.

End Flatten.

Section ReadTarget.

Variable extract_text_features :
  list string -> result (list string * list (list string) * Z).

(** The sharded reader in tgt mode: one record per file, holding the words
    of the whole file as one token stream, cut to [line_truncate] tokens;
    feature channels must agree with [self.n_feats]. *)
Lemma example_dict_iter_tgt (self : Sharded.t) (f : File) (index : Z) :
  Sharded.side self = "tgt"%string ->
  Sharded._example_dict_iter extract_text_features self f index
  = match extract_text_features
            (truncate_line (Sharded.line_truncate self) (split (read f))) with
    | Raise e => Raise e
    | Ok (words, feats, n) =>
        let example_dict : gmap string Value :=
          <["indices"%string := VInt index]>
            (<["tgt"%string := VWords words]> ∅) in
        if feats is [] then Ok example_dict
        else match Sharded.n_feats self with
             | None => Raise AttributeError
             | Some expected =>
                 if expected =? n
                 then Ok (update_feats "tgt" feats example_dict)
                 else Raise AssertionError
             end
    end.
Proof.
  intros Hside. unfold Sharded._example_dict_iter. rewrite Hside. simpl.
  rewrite split_flattened.
  destruct (extract_text_features _) as [[[words feats] n]|e]; simpl; [|done].
  destruct feats; [done|].
  destruct (Sharded.n_feats self) as [expected|]; [|done].
  unfold aeq. by destruct (expected =? n).
Qed.

(** C4: in tgt mode [read_text_dir] yields no record at all. Line 186 binds
    [text], line 187 reads the unbound local [line]: the first file of the
    directory ends the generator with an exception. *)
Theorem read_text_dir_tgt_unbound_local (f : File) (rest : list File)
    (truncate : Z) :
  Dataset.read_text_dir extract_text_features (f :: rest) truncate "tgt"
  = ([], UnboundLocalError).
Proof. reflexivity. Qed.

End ReadTarget.

(** ** The dynamic dictionary *)

Section DynamicDict.

Variables UNK_WORD PAD_WORD : string.
Variable Vocab_new : list string -> list string -> Vocab.

Lemma LongTensor2_rectangular (rows : list (list Z)) (n : nat) :
  Forall (fun r => length r = n) rows ->
  LongTensor2 rows = Ok (VLongTensor2 rows).
Proof.
  intros Hrect. destruct rows as [|r rs]; [done|]. simpl.
  inversion Hrect as [|? ? Hr Hrs]; subst.
  replace (forallb _ rs) with true; [done|].
  symmetry. apply forallb_forall. intros r' Hin.
  rewrite Forall_forall in Hrs. apply Nat.eqb_eq.
  apply Hrs. by apply list_elem_of_In.
Qed.

(** On a document whose sentences all have the same length the step
    succeeds: [src_map] has one row per sentence, one entry per token, and
    the entry is the local-vocabulary index of the token. *)
Lemma dynamic_dict_step_rectangular (src_vocabs : list Vocab)
    (example : gmap string Value) (src : list (list string)) (n : nat) :
  example !! "src"%string = Some (VSents src) ->
  example !! "tgt"%string = None ->
  Forall (fun seq => length seq = n) src ->
  let src_vocab := Vocab_new (concat src) [UNK_WORD; PAD_WORD] in
  Dataset.dynamic_dict_step UNK_WORD PAD_WORD Vocab_new src_vocabs example
  = (Ok (<["src_map"%string :=
             VLongTensor2 (map (map (stoi src_vocab)) src)]> example),
     src_vocabs ++ [src_vocab]).
Proof.
  intros Hsrc Htgt Hrect src_vocab. unfold Dataset.dynamic_dict_step.
  rewrite Hsrc. simpl.
  rewrite (LongTensor2_rectangular _ n).
  - rewrite lookup_insert_ne by done. by rewrite Htgt.
  - apply Forall_fmap. eapply Forall_impl; [exact Hrect|].
    intros seq Hlen. simpl. by rewrite length_map.
Qed.

(** C9: on a document with sentences of different lengths no [src_map] is
    produced. The nested index list of line 324 has rows of lengths 2 and 1,
    and [torch.LongTensor] refuses it after the vocabulary was appended. *)
Theorem dynamic_dict_ragged_raises (src_vocabs : list Vocab)
    (indices : Z) :
  let src := [["the"; "cat"]; ["sat"]]%string in
  let example : gmap string Value :=
    <["indices"%string := VInt indices]> (<["src"%string := VSents src]> ∅) in
  Dataset.dynamic_dict_step UNK_WORD PAD_WORD Vocab_new src_vocabs example
  = (Raise RuntimeError,
     src_vocabs ++ [Vocab_new (concat src) [UNK_WORD; PAD_WORD]]).
Proof. reflexivity. Qed.

End DynamicDict.

(** ** The length filter *)

Section Filter.

Variables UNK_WORD PAD_WORD : string.
Variable Vocab_new : list string -> list string -> Vocab.
Variable Field : Type.
Variable preprocess : Field -> Value -> Value.

Lemma Dataset_filter_true (exs : list (gmap string Value)) :
  Dataset.Dataset_filter (fun _ => Ok true) exs = Ok exs.
Proof. induction exs as [|ex exs IH]; simpl; [done|]. by rewrite IH. Qed.

(** X23: the dataset retains every example it has constructed, whatever
    [use_filter_pred] and the two length bounds are: the predicate of lines
    92 to 96 is built and selected, but line 100 hands the constant predicate
    to the parent constructor. *)
Theorem init_retains_every_example (fields : gmap string Field)
    (src_examples_iter : list (gmap string Value))
    (tgt_examples_iter : option (list (gmap string Value)))
    (num_src_feats num_tgt_feats src_seq_length tgt_seq_length : Z)
    (dynamic_dict use_filter_pred : bool)
    (out_examples : list (gmap string Value))
    (out_fields : list (string * option Field)) (vocabs : list Vocab) :
  Dataset.build_examples UNK_WORD PAD_WORD Vocab_new Field preprocess fields
    src_examples_iter tgt_examples_iter dynamic_dict
  = Ok (out_examples, out_fields, vocabs) ->
  exists ds,
    Dataset.__init__ UNK_WORD PAD_WORD Vocab_new Field preprocess fields
      src_examples_iter tgt_examples_iter num_src_feats num_tgt_feats
      src_seq_length tgt_seq_length dynamic_dict use_filter_pred = Ok ds
    /\ Dataset.examples Field ds = out_examples.
Proof.
  intros Hbuild. unfold Dataset.__init__. rewrite Hbuild. simpl.
  rewrite Dataset_filter_true. simpl. by eexists.
Qed.

End Filter.

Lemma init_retains_every_example_witness :
  exists ds,
    Dataset.__init__ "<unk>" "<blank>" (fun toks _ => vocab_of_itos toks)
      unit Samples.raw_field ∅ [Samples.src_example]
      (Some [Samples.tgt_example]) 0 0 1 1 false true = Ok ds
    /\ Dataset.examples unit ds = [Samples.joined_example].
Proof.
  apply (init_retains_every_example "<unk>" "<blank>"
           (fun toks _ => vocab_of_itos toks) unit Samples.raw_field ∅
           [Samples.src_example] (Some [Samples.tgt_example]) 0 0 1 1
           false true [Samples.joined_example]
           [("src"%string, None); ("indices"%string, None);
            ("tgt"%string, None)] []).
  vm_compute. reflexivity.
Defined.

(** C3: the length filter is selected and then dropped. With
    [use_filter_pred] true and both bounds set to 1, an example whose source
    has seven sentences fails the predicate of lines 92 to 94, so the
    documented behaviour retains nothing; the dataset keeps the example,
    because line 100 passes the constant predicate instead of
    [filter_pred]. *)
Lemma filter_pred_not_applied :
  Dataset.filter_pred 1 1 Samples.joined_example = Ok false
  /\ Dataset.spec_retained 1 1 true [Samples.joined_example] = Ok []
  /\ Dataset.examples unit
       <$> Dataset.__init__ "<unk>" "<blank>"
             (fun toks _ => vocab_of_itos toks) unit Samples.raw_field ∅
             [Samples.src_example] (Some [Samples.tgt_example])
             0 0 1 1 false true
     = Ok [Samples.joined_example].
Proof. split; [|split]; by vm_compute. Qed.

(** ** Shards of a locked pair *)

Section Lockstep.

Import ShardedHierarchicalTextCorpusIterator.

Variable extract_text_features :
  list string -> result (list string * list (list string) * Z).

Local Abbreviation readable := (readable extract_text_features).
Local Abbreviation drain := (drain extract_text_features).
Local Abbreviation next := (next extract_text_features).

Lemma same_config_refl (self : t) : same_config self self.
Proof. by repeat split. Qed.

Lemma same_config_trans (s1 s2 s3 : t) :
  same_config s1 s2 -> same_config s2 s3 -> same_config s1 s3.
Proof.
  unfold same_config. intros (?&?&?&?) (?&?&?&?). repeat split; congruence.
Qed.

Lemma readable_same_config (s1 s2 : t) (files : list File) :
  same_config s1 s2 -> readable s2 files -> readable s1 files.
Proof.
  intros Hc Hr f index self' Hf Hc'. apply Hr; [done|].
  by eapply same_config_trans.
Qed.

Lemma readable_tail (self : t) (f : File) (files : list File) :
  readable self (f :: files) -> readable self files.
Proof. intros Hr g index self' Hg. apply Hr. by right. Qed.

Lemma next_independent_store (store : gmap nat t) (r : nat) (self : t)
    (fr : Frame) :
  store !! r = Some self ->
  assoc_iter self = None ->
  next store r fr
  = let '(out, self', fr') :=
      resume_independent extract_text_features self fr in
    (out, <[r := self']> store, fr').
Proof. intros Hr Hnone. unfold Sharded.next. by rewrite Hr, Hnone. Qed.

(** One shard of an iterator without associate, under a positive budget:
    [j] files are emitted, the rest stays in [filelist]; the shard ends at
    the end of the directory with [eof] set, or at a boundary with [cur_pos]
    reset; it is not empty when its first file fits the budget. *)
Lemma drain_independent_shard (files : list File) :
  forall (store : gmap nat t) (r : nat) (self : t) (fr : Frame) (fuel : nat),
    store !! r = Some self ->
    assoc_iter self = None ->
    filelist self = files ->
    0 < shard_size self ->
    0 <= cur_pos self ->
    Forall (fun f => 0 <= getsize f) files ->
    readable self files ->
    (length files < fuel)%nat ->
    exists (exs : list (gmap string Value)) (self' : t),
      drain fuel store r fr = Some (exs, StopIteration, <[r := self']> store)
      /\ (length exs <= length files)%nat
      /\ filelist self' = drop (length exs) files
      /\ file_index self' = file_index self + len exs
      /\ same_config self' self
      /\ assoc_iter self' = None
      /\ shard_size self' = shard_size self
      /\ (filelist self' = [] /\ eof self' = true
          \/ filelist self' <> [] /\ eof self' = eof self
             /\ cur_pos self' = 0)
      /\ (cur_pos self = 0 ->
          forall f rest, files = f :: rest -> getsize f < shard_size self ->
                         exs <> []).
Proof.
  induction files as [|f files IH];
    intros store r self fr fuel Hr Hnone Hfiles HB Hpos Hsizes Hread Hfuel.
  - destruct fuel as [|fuel]; [simpl in Hfuel; lia|].
    cbn [Sharded.drain]. rewrite (next_independent_store _ _ self) by done.
    unfold resume_independent. rewrite Hfiles.
    exists [], (set_eof true self). cbn.
    split_and!; try done; try (unfold len; simpl; lia). by left.
  - destruct fuel as [|fuel]; [simpl in Hfuel; lia|].
    cbn [Sharded.drain]. rewrite (next_independent_store _ _ self) by done.
    unfold resume_independent. rewrite Hfiles.
    cbn [shard_size cur_pos set_filelist set_cur_pos filelist].
    destruct (Z.eqb_spec (shard_size self) 0) as [?|_]; [lia|].
    destruct (Z.leb_spec 0 (cur_pos self)) as [_|?]; [|lia].
    cbn [negb andb].
    destruct (Z.leb_spec (shard_size self) (getsize f + cur_pos self))
      as [Hfull|Hfits].
    + eexists [], _. split; [reflexivity|]. cbn.
      split_and!; try done; try (unfold len; simpl; lia).
      * right. by split_and!.
      * intros H0 f' rest' [= <- <-] Hlt. lia.
    + unfold emit. cbn [next_size iteration_index].
      set (self1 := set_file_index _ _).
      assert (Hc1 : same_config self1 self) by (by repeat split).
      destruct (Hread f (iteration_index fr + 1) self1) as [ex Hex];
        [by left|done|].
      rewrite Hex.
      inversion Hsizes as [|? ? Hf Hrest]; subst.
      edestruct (IH (<[r := self1]> store) r self1) as (exs & self' & Hrun & Hlen
        & Hfl & Hfi & Hcfg & Has & Hsh & Hend & _);
        [apply lookup_insert_eq|done|done|done| |done| |simpl in Hfuel;
         apply Nat.succ_lt_mono in Hfuel; exact Hfuel|].
      { subst self1. cbn. lia. }
      { eapply readable_same_config; [exact Hc1|].
        by eapply readable_tail. }
      rewrite Hrun. rewrite insert_insert_eq.
      exists (ex :: exs), self'. split; [done|].
      cbn [length drop]. split_and!; try done.
      * lia.
      * rewrite Hfi. subst self1. cbn. unfold len. cbn [length]. lia.
Qed.

Lemma next_associated_store (store : gmap nat t) (d a : nat) (self assoc : t)
    (fr : Frame) :
  store !! d = Some self ->
  assoc_iter self = Some a ->
  store !! a = Some assoc ->
  next store d fr
  = let '(out, self', fr') :=
      resume_associated extract_text_features assoc self fr in
    (out, <[d := self']> store, fr').
Proof. intros Hd Ha Hassoc. unfold Sharded.next. by rewrite Hd, Ha, Hassoc. Qed.

(** One shard of a dependent iterator that is [k] files behind its
    associate: it emits exactly [k] files and stops level with the
    associate; when the associate has hit the end it sets its own [eof] and
    then fails on the missing attribute [corpus]. *)
Lemma drain_associated_shard (k : nat) :
  forall (store : gmap nat t) (d a : nat) (self assoc : t) (fr : Frame)
         (fuel : nat),
    store !! d = Some self ->
    assoc_iter self = Some a ->
    a <> d ->
    store !! a = Some assoc ->
    file_index assoc = file_index self + Z.of_nat k ->
    (k <= length (filelist self))%nat ->
    readable self (filelist self) ->
    (k < fuel)%nat ->
    exists (exs : list (gmap string Value)) (self' : t),
      drain fuel store d fr
      = Some (exs, if eof assoc then AttributeError else StopIteration,
              <[d := self']> store)
      /\ length exs = k
      /\ filelist self' = drop k (filelist self)
      /\ file_index self' = file_index assoc
      /\ same_config self' self
      /\ assoc_iter self' = Some a
      /\ eof self' = eof assoc || eof self.
Proof.
  induction k as [|k IH];
    intros store d a self assoc fr fuel Hd Ha Hne Hassoc Hfi Hlen Hread Hfuel.
  - destruct fuel as [|fuel]; [lia|].
    cbn [Sharded.drain].
    rewrite (next_associated_store _ _ _ self assoc) by done.
    unfold resume_associated.
    destruct (Z.ltb_spec (file_index self) (file_index assoc)) as [?|_]; [lia|].
    destruct (eof assoc) eqn:Heof.
    + exists [], (set_eof true self). split_and!; try done. cbn. lia.
    + exists [], self. split_and!; try done. lia.
  - destruct fuel as [|fuel]; [lia|].
    cbn [Sharded.drain].
    rewrite (next_associated_store _ _ _ self assoc) by done.
    unfold resume_associated.
    destruct (Z.ltb_spec (file_index self) (file_index assoc)) as [_|?]; [|lia].
    destruct (filelist self) as [|f rest] eqn:Hfiles; [simpl in Hlen; lia|].
    cbn [iteration_index].
    set (self1 := set_file_index _ _).
    assert (Hc1 : same_config self1 self) by (by split_and!).
    destruct (Hread f (iteration_index fr + 1) self1) as [ex Hex];
      [by left|done|].
    rewrite Hex.
    edestruct (IH (<[d := self1]> store) d a self1 assoc) as (exs & self' & Hrun
      & Hk & Hfl & Hfi' & Hcfg & Has & Heof);
      [apply lookup_insert_eq| | |by rewrite lookup_insert_ne| | | | |].
    { subst self1. cbn. exact Ha. }
    { exact Hne. }
    { subst self1. cbn. lia. }
    { subst self1. cbn. simpl in Hlen. lia. }
    { eapply readable_same_config; [exact Hc1|].
      subst self1. cbn. by eapply readable_tail. }
    { apply Nat.succ_lt_mono in Hfuel. exact Hfuel. }
    rewrite Hrun, insert_insert_eq.
    exists (ex :: exs), self'. split_and!; try done.
    simpl. by rewrite Hk.
Qed.

(** With no file left while still behind the associate, the dependent
    generator raises the assertion of lines 390 and 391. *)
Lemma resume_associated_exhausted (assoc self : t) (fr : Frame) :
  filelist self = [] ->
  file_index self < file_index assoc ->
  resume_associated extract_text_features assoc self fr
  = (Raise AssertionError, self, fr).
Proof.
  intros Hfiles Hlt. unfold resume_associated. rewrite Hfiles.
  by destruct (Z.ltb_spec (file_index self) (file_index assoc)); [|lia].
Qed.

Lemma total_size_nonneg (files : list File) :
  Forall (fun f => 0 <= getsize f) files -> 0 <= total_size files.
Proof.
  induction 1 as [|f files Hf _ IH]; cbn [total_size foldr]; [done|].
  fold (total_size files). lia.
Qed.

Local Abbreviation zip_from := (zip_from extract_text_features).
Local Abbreviation zip := (zip extract_text_features).
Local Abbreviation __iter__ := (__iter__ extract_text_features).

(** One pass of [zip] over a locked pair that is level, when the files the
    associate has left fit its budget and the dependent has as many: every
    file of both is paired, the associate ends the pass at the end of its
    directory with [eof] set, and the dependent, which is not resumed after
    its last item, keeps its [eof] flag. *)
Lemma zip_from_pass (files : list File) :
  forall (store : gmap nat t) (A D : t) (fa fd : Frame) (fuel : nat),
    store !! 0%nat = Some A ->
    store !! 1%nat = Some D ->
    assoc_iter A = None ->
    assoc_iter D = Some 0%nat ->
    filelist A = files ->
    length (filelist D) = length files ->
    0 <= cur_pos A ->
    Forall (fun f => 0 <= getsize f) files ->
    cur_pos A + total_size files < shard_size A ->
    file_index D = file_index A ->
    readable A files ->
    readable D (filelist D) ->
    (length files < fuel)%nat ->
    exists (pairs : list (gmap string Value * gmap string Value))
           (store' : gmap nat t) (A' D' : t),
      zip_from fuel store 0%nat 1%nat fa fd
      = Some (pairs, StopIteration, store')
      /\ length pairs = length files
      /\ store' !! 0%nat = Some A'
      /\ store' !! 1%nat = Some D'
      /\ file_index A' = file_index A + len files
      /\ file_index D' = file_index A'
      /\ filelist D' = []
      /\ assoc_iter D' = Some 0%nat
      /\ eof A' = true
      /\ eof D' = eof D.
Proof.
  induction files as [|f files IH];
    intros store A D fa fd fuel HA HD HnoneA HassocD Hfiles Hlen Hpos Hsizes
           Hfit Hfi HreadA HreadD Hfuel.
  - destruct fuel as [|fuel]; [simpl in Hfuel; lia|].
    cbn [Sharded.zip_from].
    rewrite (next_independent_store _ _ A) by done.
    unfold resume_independent. rewrite Hfiles.
    exists [], (<[0%nat := set_eof true A]> store), (set_eof true A), D.
    split_and!; try done.
    + apply lookup_insert_eq.
    + by rewrite lookup_insert_ne.
    + cbn. unfold len. simpl. lia.
    + by destruct (filelist D).
  - destruct fuel as [|fuel]; [simpl in Hfuel; lia|].
    cbn [Sharded.zip_from].
    rewrite (next_independent_store _ _ A) by done.
    inversion Hsizes as [|? ? Hf Hrest]; subst.
    pose proof (total_size_nonneg files Hrest) as Htot.
    cbn [total_size foldr] in Hfit. fold (total_size files) in Hfit.
    unfold resume_independent. rewrite Hfiles.
    cbn [shard_size cur_pos set_filelist set_cur_pos filelist].
    destruct (Z.eqb_spec (shard_size A) 0) as [?|_]; [lia|].
    destruct (Z.leb_spec 0 (cur_pos A)) as [_|?]; [|lia].
    cbn [negb andb].
    destruct (Z.leb_spec (shard_size A) (getsize f + cur_pos A))
      as [?|_]; [lia|].
    unfold emit. cbn [next_size iteration_index].
    set (A1 := set_file_index _ _).
    assert (Hc1 : same_config A1 A) by (by repeat split).
    destruct (HreadA f (iteration_index fa + 1) A1) as [src Hsrc];
      [by left|done|].
    rewrite Hsrc.
    rewrite (next_associated_store _ 1%nat 0%nat D A1);
      [|by rewrite lookup_insert_ne|done|apply lookup_insert_eq].
    unfold resume_associated.
    destruct (Z.ltb_spec (file_index D) (file_index A1)) as [_|Hge];
      [|subst A1; cbn in Hge; lia].
    destruct (filelist D) as [|g rest] eqn:HfilesD; [simpl in Hlen; lia|].
    cbn [iteration_index].
    set (D1 := set_file_index _ _).
    assert (Hd1 : same_config D1 D) by (by split_and!).
    destruct (HreadD g (iteration_index fd + 1) D1) as [tgt Htgt];
      [by left|done|].
    rewrite Htgt.
    edestruct (IH (<[1%nat := D1]> (<[0%nat := A1]> store)) A1 D1)
      as (pairs & store' & A' & D' & Hrun & Hn & HA' & HD' & HfiA' & HfiD'
          & HflD' & HasD' & HeA' & HeD').
    + rewrite lookup_insert_ne by done. apply lookup_insert_eq.
    + apply lookup_insert_eq.
    + done.
    + done.
    + done.
    + subst D1. cbn. simpl in Hlen. lia.
    + subst A1. cbn. lia.
    + done.
    + subst A1. cbn. lia.
    + subst A1 D1. cbn. lia.
    + eapply readable_same_config; [exact Hc1|]. by eapply readable_tail.
    + eapply readable_same_config; [exact Hd1|].
      subst D1. cbn. by eapply readable_tail.
    + simpl in Hfuel. apply Nat.succ_lt_mono in Hfuel. exact Hfuel.
    + rewrite Hrun.
      exists ((src, tgt) :: pairs), store', A', D'.
      split_and!; try done.
      * simpl. by rewrite Hn.
      * rewrite HfiA'. subst A1. cbn. unfold len. cbn [length]. lia.
Qed.

(** C2: the dependent of a locked pair does not complete. Two fresh
    iterators over directories of [N] files each, the associate's files
    fitting one shard, are paired by [zip] (line 62): both reach file index
    [N - 1] and the associate sets [eof], but the dependent is not resumed
    after its last item, so its [eof] stays unset. Iterated once more it
    sets [eof] and fails on [self.corpus.close()] (line 399), an attribute
    the class never defines. *)
Theorem locked_dependent_never_completes (corpus_a corpus_d : list File)
    (truncate_a truncate_d shard_a shard_d : Z) (side_a side_d : string) :
  let A := __init__ corpus_a truncate_a side_a shard_a None in
  let D := __init__ corpus_d truncate_d side_d shard_d (Some 0%nat) in
  length corpus_a = length corpus_d ->
  Forall (fun f => 0 <= getsize f) corpus_a ->
  total_size corpus_a < shard_a ->
  readable A corpus_a ->
  readable D corpus_d ->
  exists (pairs : list (gmap string Value * gmap string Value))
         (store' : gmap nat t) (A' D' : t),
    zip (<[1%nat := D]> {[0%nat := A]}) 0%nat 1%nat
    = Some (pairs, StopIteration, store')
    /\ length pairs = length corpus_a
    /\ store' !! 0%nat = Some A'
    /\ store' !! 1%nat = Some D'
    /\ file_index A' = len corpus_a - 1
    /\ file_index D' = len corpus_a - 1
    /\ eof A' = true
    /\ eof D' = false
    /\ __iter__ store' 1%nat
       = Some ([], AttributeError, <[1%nat := set_eof true D']> store').
Proof.
  intros A D Hsame Hsizes Hfit HreadA HreadD.
  destruct (zip_from_pass corpus_a (<[1%nat := D]> {[0%nat := A]}) A D
              frame0 frame0 (S (length corpus_a)))
    as (pairs & store' & A' & D' & Hrun & Hn & HA' & HD' & HfiA' & HfiD'
        & HflD' & HasD' & HeA' & HeD'); try done; try lia.
  exists pairs, store', A', D'.
  split_and!; try done.
  - rewrite HfiA'. subst A. cbn. lia.
  - rewrite HfiD', HfiA'. subst A. cbn. lia.
  - unfold Sharded.__iter__. rewrite HD', HflD'. cbn [length Sharded.drain].
    rewrite (next_associated_store _ 1%nat 0%nat D' A') by done.
    unfold resume_associated. rewrite HeA'.
    by destruct (Z.ltb_spec (file_index D') (file_index A')); [lia|].
Qed.

End Lockstep.

Lemma src_dir_readable (shard : Z) (assoc : option nat) :
  Sharded.readable Samples.no_features
    (Sharded.__init__ Samples.src_dir 0 "src" shard assoc) Samples.src_dir.
Proof.
  intros f index [] Hf (Hs & Hl & Hp & Hn). simpl in *. subst.
  apply list_elem_of_In in Hf. simpl in Hf.
  destruct Hf as [<-|[<-|[]]]; eexists; by vm_compute.
Qed.

Lemma tgt_dir_readable (shard : Z) (assoc : option nat) :
  Sharded.readable Samples.no_features
    (Sharded.__init__ Samples.tgt_dir 0 "tgt" shard assoc) Samples.tgt_dir.
Proof.
  intros f index [] Hf (Hs & Hl & Hp & Hn). simpl in *. subst.
  apply list_elem_of_In in Hf. simpl in Hf.
  destruct Hf as [<-|[<-|[]]]; eexists; by vm_compute.
Qed.

Lemma locked_dependent_never_completes_witness :
  exists (pairs : list (gmap string Value * gmap string Value))
         (store' : gmap nat Sharded.t) (A' D' : Sharded.t),
    Sharded.zip Samples.no_features
      (<[1%nat := Sharded.__init__ Samples.tgt_dir 0 "tgt" 0 (Some 0%nat)]>
         {[0%nat := Sharded.__init__ Samples.src_dir 0 "src" 100 None]})
      0%nat 1%nat
    = Some (pairs, StopIteration, store')
    /\ length pairs = length Samples.src_dir
    /\ store' !! 0%nat = Some A'
    /\ store' !! 1%nat = Some D'
    /\ Sharded.file_index A' = len Samples.src_dir - 1
    /\ Sharded.file_index D' = len Samples.src_dir - 1
    /\ Sharded.eof A' = true
    /\ Sharded.eof D' = false
    /\ Sharded.__iter__ Samples.no_features store' 1%nat
       = Some ([], AttributeError,
               <[1%nat := Sharded.set_eof true D']> store').
Proof.
  apply (locked_dependent_never_completes Samples.no_features Samples.src_dir
           Samples.tgt_dir 0 0 100 0 "src" "tgt").
  - reflexivity.
  - repeat constructor; simpl; lia.
  - simpl. lia.
  - apply src_dir_readable.
  - apply tgt_dir_readable.
Defined.

(** ** Collapsing copy scores *)

Section Rows.

Implicit Types row : nat -> Q.

Lemma index_fill_spec row (idx : list Z) (v : Q) (c : nat) :
  index_fill_ row idx v c
  = if decide (c ∈ Z.to_nat <$> idx) then v else row c.
Proof.
  unfold index_fill_. revert row.
  induction idx as [|i idx IH]; intros row; cbn [foldl].
  - destruct (decide _) as [Hin|_]; [|done].
    by apply elem_of_nil in Hin.
  - rewrite IH. unfold set_col. rewrite fmap_cons.
    destruct (decide (c ∈ Z.to_nat <$> idx)) as [Hin|Hnin].
    + by rewrite decide_True by (by right).
    + destruct (Nat.eqb_spec c (Z.to_nat i)) as [->|Hne].
      * by rewrite decide_True by (by left).
      * rewrite decide_False; [done|].
        intros [?|?]%elem_of_cons; done.
Qed.

(** The values [index_add_] adds onto column [c]. *)
Lemma index_add_spec row (idx : list Z) (src : list Q) (c : nat) :
  length idx = length src ->
  index_add_ row idx src c
  = foldl Qplus (row c)
          (filter (fun p : Z * Q => Z.to_nat (fst p) = c) (zip idx src)).*2.
Proof.
  revert row src. induction idx as [|i idx IH]; intros row [|v src] Hlen;
    simpl in *; try done.
  rewrite IH by lia. unfold set_col at 1.
  rewrite filter_cons. simpl.
  destruct (decide (Z.to_nat i = c)) as [->|Hne].
  - by rewrite Nat.eqb_refl.
  - destruct (Nat.eqb_spec c (Z.to_nat i)); [congruence|done].
Qed.

Lemma index_add_ext row row' (idx : list Z) (src : list Q) :
  (forall c, row c = row' c) ->
  forall c, index_add_ row idx src c = index_add_ row' idx src c.
Proof.
  revert row row' src. induction idx as [|i idx IH]; intros row row' src Hext c;
    simpl; [done|].
  destruct src as [|v src]; [done|].
  apply IH. intros c'. unfold set_col. rewrite !Hext. done.
Qed.

Lemma index_fill_ext row row' (idx : list Z) (v : Q) :
  (forall c, row c = row' c) ->
  forall c, index_fill_ row idx v c = index_fill_ row' idx v c.
Proof. intros Hext c. rewrite !index_fill_spec. by rewrite Hext. Qed.

Lemma index_select_ext row row' (idx : list Z) :
  (forall c, row c = row' c) -> index_select row idx = index_select row' idx.
Proof. intros Hext. unfold index_select. apply map_ext. intros; apply Hext. Qed.

Lemma collapse_row_ext (ms : list (Z * Z)) row row' :
  (forall c, row c = row' c) ->
  forall c, Dataset.collapse_row ms row c = Dataset.collapse_row ms row' c.
Proof.
  intros Hext c. unfold Dataset.collapse_row.
  apply index_fill_ext. intros c'.
  rewrite (index_select_ext row row') by done.
  by apply index_add_ext.
Qed.

(** One row after lines 135 to 137: a blanked column holds epsilon, any other
    column has received the old values of the columns filled onto it. *)
Lemma collapse_row_spec (ms : list (Z * Z)) row (c : nat) :
  Dataset.collapse_row ms row c
  = if decide (c ∈ Z.to_nat <$> ms.*1) then Dataset.epsilon
    else foldl Qplus (row c)
           (map (fun m => row (Z.to_nat (fst m)))
                (filter (fun m : Z * Z => Z.to_nat (snd m) = c) ms)).
Proof.
  unfold Dataset.collapse_row. rewrite index_fill_spec.
  destruct (decide _); [done|].
  rewrite index_add_spec by (unfold index_select; by rewrite !length_map).
  f_equal. unfold index_select. clear.
  induction ms as [|[x y] ms IH]; [done|].
  cbn [fmap list_fmap map zip zip_with fst snd].
  rewrite !filter_cons. cbn [fst snd].
  destruct (decide (Z.to_nat y = c)).
  - cbn [fmap list_fmap map fst snd]. f_equal. exact IH.
  - exact IH.
Qed.

End Rows.

Section Collapse.

Import HierarchicalTextDataset.

Implicit Types (scores : Tensor3) (batch : Batch) (b : nat).
Implicit Types (tgt_vocab src_vocab : Vocab) (src_vocabs : list Vocab).

Lemma elem_of_moves (offset : Z) tgt_vocab src_vocab (x ti : Z) :
  (x, ti) ∈ moves offset tgt_vocab src_vocab
  <-> exists (i : nat) (sw : string),
        (1 <= i)%nat /\ itos src_vocab !! i = Some sw
        /\ stoi tgt_vocab sw = ti /\ ti <> 0 /\ x = offset + Z.of_nat i.
Proof.
  unfold moves. rewrite list_elem_of_omap. split.
  - intros (i & Hi & Hg). apply elem_of_seq in Hi.
    destruct (itos src_vocab !! i) as [sw|] eqn:Hsw; [|done].
    destruct (Z.eqb_spec (stoi tgt_vocab sw) 0) as [|Hnz]; [done|].
    injection Hg as <- <-. exists i, sw. split_and!; try done. lia.
  - intros (i & sw & Hi & Hsw & Hti & Hnz & ->). exists i. split.
    + apply elem_of_seq. apply lookup_lt_Some in Hsw. lia.
    + rewrite Hsw. subst ti.
      by destruct (Z.eqb_spec (stoi tgt_vocab sw) 0).
Qed.

(** The old values filled onto shared column [c] are those of the local
    indices that [sources_of] lists. *)
Lemma moved_values (o : nat) tgt_vocab src_vocab (row : nat -> Q) (c : nat) :
  Forall (fun sw => 0 <= stoi tgt_vocab sw) (itos src_vocab) ->
  map (fun m : Z * Z => row (Z.to_nat (fst m)))
      (filter (fun m : Z * Z => Z.to_nat (snd m) = c)
              (moves (Z.of_nat o) tgt_vocab src_vocab))
  = map (fun i => row (o + i)%nat)
        (sources_of tgt_vocab src_vocab (Z.of_nat c)).
Proof.
  intros Hpos. unfold moves, sources_of.
  generalize (seq 1 (length (itos src_vocab) - 1)). intros l.
  induction l as [|i l IH]; [done|].
  cbn [omap list_omap List.filter].
  destruct (itos src_vocab !! i) as [sw|] eqn:Hsw; [|exact IH].
  assert (Hge : 0 <= stoi tgt_vocab sw).
  { rewrite Forall_forall in Hpos. apply Hpos.
    by eapply list_elem_of_lookup_2. }
  set (keep := (stoi tgt_vocab sw =? Z.of_nat c) && negb (Z.of_nat c =? 0)).
  destruct (Z.eqb_spec (stoi tgt_vocab sw) 0) as [Hz|Hnz].
  - assert (Hkeep : keep = false).
    { subst keep. destruct (Z.eqb_spec (stoi tgt_vocab sw) (Z.of_nat c));
        destruct (Z.eqb_spec (Z.of_nat c) 0); simpl; try done; lia. }
    rewrite Hkeep. exact IH.
  - rewrite filter_cons. cbn [snd fst].
    destruct (decide (Z.to_nat (stoi tgt_vocab sw) = c)) as [Heq|Hneq].
    + assert (Hkeep : keep = true).
      { subst keep. destruct (Z.eqb_spec (stoi tgt_vocab sw) (Z.of_nat c));
          destruct (Z.eqb_spec (Z.of_nat c) 0); simpl; try done; lia. }
      rewrite Hkeep. cbn [map fst]. rewrite IH.
      replace (Z.to_nat (Z.of_nat o + Z.of_nat i)) with (o + i)%nat by lia.
      done.
    + assert (Hkeep : keep = false).
      { subst keep. destruct (Z.eqb_spec (stoi tgt_vocab sw) (Z.of_nat c));
          destruct (Z.eqb_spec (Z.of_nat c) 0); simpl; try done; lia. }
      rewrite Hkeep. exact IH.
Qed.

Lemma foldl_Qplus_map {A : Type} (f : A -> Q) (q : Q) (l : list A) :
  foldl Qplus q (map f l) = foldl (fun acc x => (acc + f x)%Q) q l.
Proof. revert q. induction l as [|x l IH]; intros q; simpl; [done|apply IH]. Qed.

Lemma collapsible_at_inv scores batch tgt_vocab src_vocabs b :
  collapsible_at scores batch tgt_vocab src_vocabs b = true ->
  exists src_vocab,
    src_vocab_at src_vocabs batch b = Ok src_vocab
    /\ (b < dimB scores)%nat
    /\ (length (itos tgt_vocab) + length (itos src_vocab) <= dimV scores)%nat
    /\ Forall (fun sw => 0 <= stoi tgt_vocab sw < len (itos tgt_vocab))
              (itos src_vocab).
Proof.
  unfold collapsible_at.
  destruct (src_vocab_at src_vocabs batch b) as [src_vocab|e]; [|done].
  intros [[Hb Hv]%andb_prop Hs]%andb_prop.
  exists src_vocab. split_and!; try done.
  - by apply Nat.ltb_lt.
  - by apply Nat.leb_le.
  - apply Forall_forall. intros sw Hin.
    rewrite forallb_forall in Hs.
    specialize (Hs sw ltac:(by apply list_elem_of_In)).
    apply andb_prop in Hs as [?%Z.leb_le ?%Z.ltb_lt]. lia.
Qed.

(** Under [collapsible_at] no index of lines 135 to 137 leaves the tensor. *)
Lemma moves_index_ok scores tgt_vocab src_vocab :
  (length (itos tgt_vocab) + length (itos src_vocab) <= dimV scores)%nat ->
  Forall (fun sw => 0 <= stoi tgt_vocab sw < len (itos tgt_vocab))
         (itos src_vocab) ->
  let ms := moves (len (itos tgt_vocab)) tgt_vocab src_vocab in
  forallb (index_ok (dimV scores)) (ms.*1 ++ ms.*2) = true.
Proof.
  intros Hv Hs ms. apply forallb_forall. intros x Hx.
  apply list_elem_of_In in Hx. unfold index_ok, len in *.
  assert (Hm : exists i sw, (1 <= i)%nat /\ itos src_vocab !! i = Some sw
                 /\ (x = Z.of_nat (length (itos tgt_vocab)) + Z.of_nat i
                     \/ x = stoi tgt_vocab sw)).
  { apply elem_of_app in Hx as [Hx|Hx];
      apply list_elem_of_fmap in Hx as ([x' ti] & -> & Hin);
      apply elem_of_moves in Hin as (i & sw & ? & ? & ? & ? & ?);
      exists i, sw; split_and!; try done; simpl; [by left|by right]. }
  destruct Hm as (i & sw & Hi & Hsw & Hx').
  pose proof (lookup_lt_Some _ _ _ Hsw) as Hlt.
  rewrite Forall_forall in Hs.
  specialize (Hs sw ltac:(by eapply list_elem_of_lookup_2)).
  apply andb_true_intro. split; [apply Z.leb_le|apply Z.ltb_lt]; lia.
Qed.

Lemma collapse_one_spec scores batch tgt_vocab src_vocabs b :
  collapsible_at scores batch tgt_vocab src_vocabs b = true ->
  exists scores1 src_vocab,
    src_vocab_at src_vocabs batch b = Ok src_vocab
    /\ collapse_one tgt_vocab src_vocabs batch scores b = Ok scores1
    /\ dims scores1 = dims scores
    /\ forall t b' c,
         entry scores1 t b' c
         = if Nat.eqb b' b
           then collapse_row (moves (len (itos tgt_vocab)) tgt_vocab src_vocab)
                             (entry scores t b) c
           else entry scores t b' c.
Proof.
  intros (src_vocab & Hat0 & Hb & Hv & Hs)%collapsible_at_inv.
  pose proof Hat0 as Hat.
  unfold collapse_one. unfold src_vocab_at in Hat.
  destruct (getitem (indices batch) (Z.of_nat b)) as [index|e]; [|done].
  simpl in Hat |- *. rewrite Hat. simpl.
  pose proof (moves_index_ok scores tgt_vocab src_vocab Hv Hs) as Hok.
  simpl in Hok.
  destruct (moves (len (itos tgt_vocab)) tgt_vocab src_vocab) as [|m ms] eqn:Hms.
  - exists scores, src_vocab. split_and!; try done.
    intros t b' c. rewrite Hms.
    destruct (Nat.eqb_spec b' b) as [->|_]; reflexivity.
  - apply Nat.ltb_lt in Hb. rewrite Hb, Hok. simpl.
    eexists _, src_vocab. split_and!; try done.
    intros t b' c. rewrite Hms. cbn [entry].
    by destruct (b' =? b)%nat.
Qed.

Lemma collapsible_at_dims scores scores1 batch tgt_vocab src_vocabs b :
  dims scores1 = dims scores ->
  collapsible_at scores1 batch tgt_vocab src_vocabs b
  = collapsible_at scores batch tgt_vocab src_vocabs b.
Proof.
  intros Hd. unfold collapsible_at, dimB, dimV. by rewrite Hd.
Qed.

Lemma collapsed_row_ext tgt_vocab src_vocabs batch b (row row' : nat -> Q) :
  (forall c, row c = row' c) ->
  forall c, collapsed_row tgt_vocab src_vocabs batch b row c
            = collapsed_row tgt_vocab src_vocabs batch b row' c.
Proof.
  intros Hext c. unfold collapsed_row.
  destruct (src_vocab_at src_vocabs batch b); [|apply Hext].
  by apply collapse_row_ext.
Qed.

(** The loop over the batch touches the rows of the elements it visits,
    each one once, and no other. *)
Lemma collapse_loop_spec batch tgt_vocab src_vocabs (bs : list nat) :
  forall scores,
    NoDup bs ->
    Forall (fun b => collapsible_at scores batch tgt_vocab src_vocabs b = true)
           bs ->
    exists scores',
      collapse_loop tgt_vocab src_vocabs batch scores bs = Ok scores'
      /\ dims scores' = dims scores
      /\ forall t b c,
           entry scores' t b c
           = if decide (b ∈ bs)
             then collapsed_row tgt_vocab src_vocabs batch b
                                (entry scores t b) c
             else entry scores t b c.
Proof.
  induction bs as [|b0 bs IH]; intros scores Hnd Hall.
  - exists scores. by split_and!.
  - apply NoDup_cons in Hnd as [Hnotin Hnd].
    apply Forall_cons in Hall as [Hb0 Hall].
    destruct (collapse_one_spec scores batch tgt_vocab src_vocabs b0 Hb0)
      as (scores1 & src_vocab & Hat & Hone & Hd1 & He1).
    destruct (IH scores1 Hnd) as (scores' & Hrun & Hd' & He').
    { eapply Forall_impl; [exact Hall|]. intros b Hb. simpl in Hb |- *.
      by rewrite (collapsible_at_dims scores scores1). }
    exists scores'. cbn [collapse_loop]. rewrite Hone. simpl.
    split_and!; [done|congruence|].
    intros t b c. rewrite He'.
    destruct (decide (b ∈ bs)) as [Hin|Hnin].
    + rewrite decide_True by (by right).
      apply collapsed_row_ext. intros c'. rewrite He1.
      destruct (Nat.eqb_spec b b0) as [->|_]; [done|done].
    + rewrite He1. destruct (Nat.eqb_spec b b0) as [->|Hne].
      * rewrite decide_True by (by left).
        unfold collapsed_row. by rewrite Hat.
      * rewrite decide_False; [done|].
        intros [?|?]%elem_of_cons; done.
Qed.

Lemma collapsible_forall scores batch tgt_vocab src_vocabs :
  collapsible scores batch tgt_vocab src_vocabs = true ->
  Forall (fun b => collapsible_at scores batch tgt_vocab src_vocabs b = true)
         (seq 0 (batch_size batch)).
Proof.
  unfold collapsible. intros H. apply Forall_forall. intros b Hb.
  rewrite forallb_forall in H. apply H. by apply list_elem_of_In.
Qed.

Lemma sources_of_none tgt_vocab src_vocab (c : Z) :
  Forall (fun sw => stoi tgt_vocab sw <> c) (itos src_vocab) ->
  sources_of tgt_vocab src_vocab c = [].
Proof.
  intros Hne. unfold sources_of.
  generalize (seq 1 (length (itos src_vocab) - 1)). intros l.
  induction l as [|i l IH]; [done|]. cbn [List.filter].
  destruct (itos src_vocab !! i) as [sw|] eqn:Hsw; [|exact IH].
  rewrite Forall_forall in Hne.
  specialize (Hne sw ltac:(by eapply list_elem_of_lookup_2)).
  by destruct (Z.eqb_spec (stoi tgt_vocab sw) c).
Qed.

(** The rows of the result, column by column. *)
Lemma collapse_copy_scores_rows scores batch tgt_vocab src_vocabs :
  collapsible scores batch tgt_vocab src_vocabs = true ->
  exists scores',
    collapse_copy_scores scores batch tgt_vocab src_vocabs = Ok scores'
    /\ dims scores' = dims scores
    /\ (forall t b c, (batch_size batch <= b)%nat ->
          entry scores' t b c = entry scores t b c)
    /\ forall b src_vocab,
         (b < batch_size batch)%nat ->
         src_vocab_at src_vocabs batch b = Ok src_vocab ->
         let offset := length (itos tgt_vocab) in
         forall t,
           (forall i sw,
               (1 <= i)%nat -> itos src_vocab !! i = Some sw ->
               stoi tgt_vocab sw <> 0 ->
               entry scores' t b (offset + i)%nat = epsilon)
           /\ (forall c,
                 (offset <= c)%nat ->
                 (forall i sw,
                     (1 <= i)%nat -> itos src_vocab !! i = Some sw ->
                     c = (offset + i)%nat -> stoi tgt_vocab sw = 0) ->
                 entry scores' t b c = entry scores t b c)
           /\ (forall c,
                 (c < offset)%nat ->
                 entry scores' t b c
                 = foldl (fun acc i =>
                            (acc + entry scores t b (offset + i)%nat)%Q)
                         (entry scores t b c)
                         (sources_of tgt_vocab src_vocab (Z.of_nat c))).
Proof.
  intros Hok. pose proof (collapsible_forall _ _ _ _ Hok) as Hall.
  destruct (collapse_loop_spec batch tgt_vocab src_vocabs
              (seq 0 (batch_size batch)) scores (NoDup_seq _ _) Hall)
    as (scores' & Hrun & Hd & He).
  exists scores'. split_and!; try done.
  - intros t b c Hb. rewrite He. rewrite decide_False; [done|].
    rewrite elem_of_seq. lia.
  - intros b src_vocab Hb Hat offset t.
    assert (Hin : b ∈ seq 0 (batch_size batch)) by (apply elem_of_seq; lia).
    rewrite Forall_forall in Hall.
    destruct (collapsible_at_inv _ _ _ _ _ (Hall b Hin))
      as (sv & Hat' & _ & _ & Hs).
    rewrite Hat in Hat'. injection Hat' as <-.
    assert (Hrow : forall c,
      entry scores' t b c
      = collapse_row (moves (len (itos tgt_vocab)) tgt_vocab src_vocab)
                     (entry scores t b) c).
    { intros c. rewrite He, decide_True by done.
      unfold collapsed_row. by rewrite Hat. }
    assert (Hblank : forall c,
      c ∈ Z.to_nat <$> (moves (len (itos tgt_vocab)) tgt_vocab src_vocab).*1
      <-> exists i sw, (1 <= i)%nat /\ itos src_vocab !! i = Some sw
                       /\ stoi tgt_vocab sw <> 0 /\ c = (offset + i)%nat).
    { intros c. rewrite list_elem_of_fmap. split.
      - intros (x & -> & Hx). apply list_elem_of_fmap in Hx as ([x' ti] & -> & Hm).
        apply elem_of_moves in Hm as (i & sw & ? & ? & ? & ? & ->).
        exists i, sw. split_and!; try done; [congruence|].
        simpl. unfold len, offset. lia.
      - intros (i & sw & Hi & Hsw & Hnz & ->).
        exists (len (itos tgt_vocab) + Z.of_nat i). split.
        + unfold len, offset. lia.
        + apply list_elem_of_fmap.
          exists (len (itos tgt_vocab) + Z.of_nat i, stoi tgt_vocab sw).
          split; [done|]. apply elem_of_moves. by exists i, sw. }
    assert (Hpos : Forall (fun sw => 0 <= stoi tgt_vocab sw) (itos src_vocab)).
    { eapply Forall_impl; [exact Hs|]. simpl. intros; lia. }
    split_and!.
    + intros i sw Hi Hsw Hnz. rewrite Hrow, collapse_row_spec.
      rewrite decide_True; [done|]. apply Hblank. by exists i, sw.
    + intros c Hc Hnone. rewrite Hrow, collapse_row_spec.
      rewrite decide_False.
      * pose proof (moved_values (length (itos tgt_vocab)) tgt_vocab
                      src_vocab (entry scores t b) c Hpos) as Hmv.
        unfold len. rewrite Hmv.
        rewrite sources_of_none; [done|].
        eapply Forall_impl; [exact Hs|]. simpl. unfold len, offset in *.
        intros sw ?. lia.
      * intros (i & sw & Hi & Hsw & Hnz & ->)%Hblank.
        apply Hnz. by eapply Hnone.
    + intros c Hc. rewrite Hrow, collapse_row_spec.
      rewrite decide_False.
      * pose proof (moved_values (length (itos tgt_vocab)) tgt_vocab
                      src_vocab (entry scores t b) c Hpos) as Hmv.
        unfold len. rewrite Hmv. apply foldl_Qplus_map.
      * intros (i & sw & Hi & Hsw & Hnz & ->)%Hblank. unfold offset in Hc. lia.
Qed.

(** C6: for every batch element, a local index [i >= 1] whose token has a
    shared slot other than the unknown slot 0 has its expanded column
    [offset + i] set to epsilon, and the old value of that column is added
    onto the shared column of the token; every other expanded column, and the
    rows outside the batch, are left as they were. *)
Theorem collapse_copy_scores_spec scores batch tgt_vocab src_vocabs :
  collapsible scores batch tgt_vocab src_vocabs = true ->
  exists scores',
    collapse_copy_scores scores batch tgt_vocab src_vocabs = Ok scores'
    /\ dims scores' = dims scores
    /\ (forall t b c, (batch_size batch <= b)%nat ->
          entry scores' t b c = entry scores t b c)
    /\ forall b src_vocab,
         (b < batch_size batch)%nat ->
         src_vocab_at src_vocabs batch b = Ok src_vocab ->
         let offset := length (itos tgt_vocab) in
         forall t,
           (forall i sw,
               (1 <= i)%nat -> itos src_vocab !! i = Some sw ->
               stoi tgt_vocab sw <> 0 ->
               entry scores' t b (offset + i)%nat = epsilon)
           /\ (forall c,
                 (offset <= c)%nat ->
                 (forall i sw,
                     (1 <= i)%nat -> itos src_vocab !! i = Some sw ->
                     c = (offset + i)%nat -> stoi tgt_vocab sw = 0) ->
                 entry scores' t b c = entry scores t b c)
           /\ (forall c,
                 (c < offset)%nat ->
                 entry scores' t b c
                 = foldl (fun acc i =>
                            (acc + entry scores t b (offset + i)%nat)%Q)
                         (entry scores t b c)
                         (sources_of tgt_vocab src_vocab (Z.of_nat c))).
Proof. apply collapse_copy_scores_rows. Qed.

End Collapse.

Section CollapseTwice.

Import HierarchicalTextDataset.

Implicit Types (scores : Tensor3) (batch : Batch) (b : nat).
Implicit Types (tgt_vocab src_vocab : Vocab) (src_vocabs : list Vocab).

Lemma collapsible_dims scores scores1 batch tgt_vocab src_vocabs :
  dims scores1 = dims scores ->
  collapsible scores1 batch tgt_vocab src_vocabs
  = collapsible scores batch tgt_vocab src_vocabs.
Proof.
  intros Hd. unfold collapsible.
  induction (seq 0 (batch_size batch)) as [|b bs IH]; [done|].
  cbn [forallb]. by rewrite IH, (collapsible_at_dims scores scores1).
Qed.

Lemma elem_of_sources_of tgt_vocab src_vocab (c : Z) (i : nat) :
  i ∈ sources_of tgt_vocab src_vocab c ->
  (1 <= i)%nat
  /\ exists sw, itos src_vocab !! i = Some sw
                /\ stoi tgt_vocab sw = c /\ c <> 0.
Proof.
  unfold sources_of. intros Hin. apply list_elem_of_In in Hin.
  apply filter_In in Hin as [Hseq Hkeep].
  apply in_seq in Hseq. split; [lia|].
  destruct (itos src_vocab !! i) as [sw|]; [|done].
  apply andb_prop in Hkeep as [?%Z.eqb_eq Hnz]. exists sw.
  split_and!; try done.
  by destruct (Z.eqb_spec c 0).
Qed.

Lemma foldl_constant_steps {A : Type} (f : A -> Q) (v q : Q) (l : list A) :
  (forall x, x ∈ l -> f x = v) ->
  (foldl (fun acc x => acc + f x) q l
   == q + inject_Z (Z.of_nat (length l)) * v)%Q.
Proof.
  revert q. induction l as [|x l IH]; intros q Hall.
  - simpl. unfold inject_Z. ring.
  - cbn [foldl length]. rewrite IH by (intros y Hy; apply Hall; by right).
    rewrite (Hall x) by (by left).
    rewrite Nat2Z.inj_succ, <- Z.add_1_r, inject_Z_plus.
    change (inject_Z 1) with 1%Q. ring.
Qed.

(** C7, amended: a second pass over collapsed scores leaves every column of
    the expanded region as it is, and adds epsilon to a shared column once
    for every local index collapsed onto it; it changes nothing exactly in
    the shared columns that no local token is collapsed onto. *)
Theorem collapse_twice_adds_epsilon scores batch tgt_vocab src_vocabs :
  collapsible scores batch tgt_vocab src_vocabs = true ->
  exists once twice,
    collapse_copy_scores scores batch tgt_vocab src_vocabs = Ok once
    /\ collapse_copy_scores once batch tgt_vocab src_vocabs = Ok twice
    /\ (forall t b c, (batch_size batch <= b)%nat ->
          entry twice t b c = entry once t b c)
    /\ forall b src_vocab,
         (b < batch_size batch)%nat ->
         src_vocab_at src_vocabs batch b = Ok src_vocab ->
         let offset := length (itos tgt_vocab) in
         forall t c,
           ((offset <= c)%nat -> entry twice t b c = entry once t b c)
           /\ ((c < offset)%nat ->
               (entry twice t b c
                == entry once t b c
                   + inject_Z (Z.of_nat
                       (length (sources_of tgt_vocab src_vocab (Z.of_nat c))))
                     * epsilon)%Q)
           /\ ((c < offset)%nat ->
               sources_of tgt_vocab src_vocab (Z.of_nat c) = [] ->
               entry twice t b c = entry once t b c).
Proof.
  intros Hok.
  destruct (collapse_copy_scores_rows scores batch tgt_vocab src_vocabs Hok)
    as (once & Hrun1 & Hd1 & Hout1 & Hrows1).
  assert (Hok1 : collapsible once batch tgt_vocab src_vocabs = true).
  { by rewrite (collapsible_dims scores once). }
  destruct (collapse_copy_scores_rows once batch tgt_vocab src_vocabs Hok1)
    as (twice & Hrun2 & Hd2 & Hout2 & Hrows2).
  exists once, twice. split_and!; try done.
  intros b src_vocab Hb Hat offset t c.
  destruct (Hrows1 b src_vocab Hb Hat t) as (Heps1 & _ & _).
  destruct (Hrows2 b src_vocab Hb Hat t) as (Heps2 & Hkeep2 & Hadd2).
  fold offset in Heps1, Heps2, Hkeep2, Hadd2.
  assert (Hsrc : forall i,
    i ∈ sources_of tgt_vocab src_vocab (Z.of_nat c) ->
    entry once t b (offset + i)%nat = epsilon).
  { intros i (Hi & sw & Hsw & Hti & Hnz)%elem_of_sources_of.
    apply (Heps1 i sw); [done|done|congruence]. }
  split_and!.
  - intros Hc.
    destruct (itos src_vocab !! (c - offset)%nat) as [sw|] eqn:Hsw.
    + destruct (decide (stoi tgt_vocab sw = 0)) as [Hz|Hnz].
      * apply Hkeep2; [done|]. intros i sw' Hi Hsw' ->.
        replace (offset + i - offset)%nat with i in Hsw by lia. congruence.
      * destruct (decide (1 <= c - offset)%nat) as [Hi|Hi].
        -- replace c with (offset + (c - offset))%nat by lia.
           rewrite (Heps2 _ sw Hi Hsw Hnz). by rewrite (Heps1 _ sw Hi Hsw Hnz).
        -- apply Hkeep2; [done|]. intros i sw' Hi' Hsw' ->. lia.
    + apply Hkeep2; [done|]. intros i sw' Hi Hsw' ->.
      replace (offset + i - offset)%nat with i in Hsw by lia. congruence.
  - intros Hc. rewrite (Hadd2 c Hc).
    by apply foldl_constant_steps.
  - intros Hc Hnil. rewrite (Hadd2 c Hc). by rewrite Hnil.
Qed.

End CollapseTwice.

Lemma collapse_copy_scores_spec_witness :
  exists scores',
    Dataset.collapse_copy_scores Samples.scores Samples.one_batch
      Samples.tgt_vocab [Samples.src_vocab] = Ok scores'
    /\ dims scores' = dims Samples.scores.
Proof.
  destruct (collapse_copy_scores_spec Samples.scores Samples.one_batch
              Samples.tgt_vocab [Samples.src_vocab])
    as (scores' & Hrun & Hd & _); [by vm_compute|].
  by exists scores'.
Defined.

Lemma collapse_twice_adds_epsilon_witness :
  exists once twice,
    Dataset.collapse_copy_scores Samples.scores Samples.one_batch
      Samples.tgt_vocab [Samples.src_vocab] = Ok once
    /\ Dataset.collapse_copy_scores once Samples.one_batch
         Samples.tgt_vocab [Samples.src_vocab] = Ok twice
    /\ (entry twice 0 0 1 == entry once 0 0 1 + inject_Z 1 * Dataset.epsilon)%Q.
Proof.
  destruct (collapse_twice_adds_epsilon Samples.scores Samples.one_batch
              Samples.tgt_vocab [Samples.src_vocab])
    as (once & twice & Hrun1 & Hrun2 & _ & Hrows); [by vm_compute|].
  exists once, twice. split_and!; try done.
  destruct (Hrows 0%nat Samples.src_vocab ltac:(simpl; lia) eq_refl 0%nat 1%nat)
    as (_ & Hadd & _).
  apply Hadd. simpl. lia.
Defined.

(** C7 as stated fails: the shared column of the word [a] holds 8 after one
    pass and 8 + 1e-10 after two. *)
Lemma collapse_not_idempotent :
  exists once twice,
    Dataset.collapse_copy_scores Samples.scores Samples.one_batch
      Samples.tgt_vocab [Samples.src_vocab] = Ok once
    /\ Dataset.collapse_copy_scores once Samples.one_batch
         Samples.tgt_vocab [Samples.src_vocab] = Ok twice
    /\ (entry once 0 0 1 == 8)%Q
    /\ (entry twice 0 0 1 == 8 + Dataset.epsilon)%Q
    /\ ~ (entry twice 0 0 1 == entry once 0 0 1)%Q.
Proof.
  eexists _, _. split; [reflexivity|]. split; [reflexivity|].
  split_and!; by vm_compute.
Qed.

(** ** Supporting facts: the budget of a shard, shared-vocabulary slots *)

Section Budget.

Import ShardedHierarchicalTextCorpusIterator.

Variable extract_text_features :
  list string -> result (list string * list (list string) * Z).

(** One shard of an iterator without associate under a positive budget: the
    files emitted are a prefix of the file list whose sizes, added to
    [cur_pos], stay below the budget; when files remain, the first of them is
    the one that would have reached the budget, pushed back. *)
Lemma independent_shard_budget (files : list File) :
  forall (store : gmap nat t) (r : nat) (self : t) (fr : Frame) (fuel : nat),
    store !! r = Some self ->
    assoc_iter self = None ->
    filelist self = files ->
    0 < shard_size self ->
    0 <= cur_pos self ->
    Forall (fun f => 0 <= getsize f) files ->
    readable extract_text_features self files ->
    (length files < fuel)%nat ->
    exists (exs : list (gmap string Value)) (self' : t),
      drain extract_text_features fuel store r fr
      = Some (exs, StopIteration, <[r := self']> store)
      /\ filelist self' = drop (length exs) files
      /\ (exs <> [] ->
          cur_pos self + total_size (take (length exs) files)
          < shard_size self)
      /\ (forall f rest,
            filelist self' = f :: rest ->
            shard_size self
            <= getsize f
               + (cur_pos self + total_size (take (length exs) files))).
Proof.
  induction files as [|f files IH];
    intros store r self fr fuel Hr Hnone Hfiles HB Hpos Hsizes Hread Hfuel.
  - destruct fuel as [|fuel]; [simpl in Hfuel; lia|].
    cbn [drain]. rewrite (next_independent_store _ _ _ self) by done.
    unfold resume_independent. rewrite Hfiles.
    exists [], (set_eof true self). cbn. split_and!; try done.
    intros f rest Hnil. rewrite Hfiles in Hnil. done.
  - destruct fuel as [|fuel]; [simpl in Hfuel; lia|].
    cbn [drain]. rewrite (next_independent_store _ _ _ self) by done.
    unfold resume_independent. rewrite Hfiles.
    cbn [shard_size cur_pos set_filelist set_cur_pos filelist].
    destruct (Z.eqb_spec (shard_size self) 0) as [?|_]; [lia|].
    destruct (Z.leb_spec 0 (cur_pos self)) as [_|?]; [|lia].
    cbn [negb andb].
    destruct (Z.leb_spec (shard_size self) (getsize f + cur_pos self))
      as [Hfull|Hfits].
    + eexists [], _. split; [reflexivity|]. cbn. split_and!; try done.
      intros f' rest' [= <- <-]. lia.
    + unfold emit. cbn [next_size iteration_index].
      set (self1 := set_file_index _ _).
      assert (Hc1 : same_config self1 self) by (by split_and!).
      destruct (Hread f (iteration_index fr + 1) self1) as [ex Hex];
        [by left|done|].
      rewrite Hex.
      inversion Hsizes as [|? ? Hf Hrest]; subst.
      edestruct (IH (<[r := self1]> store) r self1) as (exs & self' & Hrun
        & Hfl & Hbelow & Hpush);
        [apply lookup_insert_eq|done|done|done| |done| |simpl in Hfuel;
         apply Nat.succ_lt_mono in Hfuel; exact Hfuel|].
      { subst self1. cbn. lia. }
      { eapply readable_same_config; [exact Hc1|].
        by eapply readable_tail. }
      rewrite Hrun. rewrite insert_insert_eq.
      exists (ex :: exs), self'. split; [done|].
      cbn [length drop take total_size foldr]. fold (total_size (take (length exs) files)).
      subst self1. cbn in Hbelow, Hpush. split_and!; try done.
      * intros _. destruct exs as [|ex' exs].
        -- cbn [length]. rewrite take_0. cbn. lia.
        -- specialize (Hbelow ltac:(done)). lia.
      * intros f' rest' Hrest'. specialize (Hpush f' rest' Hrest'). lia.
Qed.

End Budget.

Section SharedSlots.

Lemma stoi_of_itos_snoc (l : list string) (x w : string) :
  stoi_of_itos (l ++ [x]) w
  = if String.eqb x w then len l else stoi_of_itos l w.
Proof.
  unfold stoi_of_itos, enumerate. rewrite imap_app, foldl_app. cbn.
  by rewrite Nat.add_0_r.
Qed.

(** The default dictionary answers a nonzero slot exactly for the tokens
    that occur in the vocabulary outside slot 0. *)
Lemma stoi_of_itos_nonzero (l : list string) (w : string) :
  stoi_of_itos l w <> 0
  <-> exists i : nat, (1 <= i)%nat /\ l !! i = Some w.
Proof.
  induction l as [|x l IH] using rev_ind.
  - split; [done|]. by intros (i & _ & ?).
  - rewrite stoi_of_itos_snoc.
    destruct (String.eqb_spec x w) as [->|Hne].
    + destruct l as [|y l].
      * split; [done|]. intros (i & Hi & Hl).
        destruct i as [|[|i]]; simpl in Hl; [lia|done|done].
      * split; [|unfold len; simpl; lia]. intros _.
        exists (length (y :: l)). split; [simpl; lia|].
        by apply list_lookup_middle.
    + rewrite IH. split.
      * intros (i & Hi & Hl). exists i. split; [done|].
        by apply lookup_app_l_Some.
      * intros (i & Hi & Hl). exists i. split; [done|].
        apply lookup_app_Some in Hl as [Hl|[_ Hl]]; [done|].
        destruct (i - length l)%nat as [|k]; simpl in Hl; [|done].
        congruence.
Qed.

End SharedSlots.

(** ** Further properties of the sharded iterator *)

Section ShardContents.

Import ShardedHierarchicalTextCorpusIterator.

Variable extract_text_features :
  list string -> result (list string * list (list string) * Z).

Local Abbreviation example_of := (_example_dict_iter extract_text_features).

Lemma src_lines_config (s1 s2 : t) (d : gmap string Value)
    (ls : list (Z * string)) :
  same_config s1 s2 ->
  src_lines extract_text_features s1 d ls
  = src_lines extract_text_features s2 d ls.
Proof.
  intros (Hs & Hl & _ & _). revert d.
  induction ls as [|[j l] ls IH]; intros d; [done|].
  cbn [src_lines]. unfold src_line. rewrite Hs, Hl.
  destruct (extract_text_features _) as [[[words feats] n]|e]; [|done].
  simpl. by destruct (d !! side s2) as [[]|]; simpl.
Qed.

(** Building an example reads the configuration of the iterator only, never
    its cursor. *)
Lemma example_dict_iter_config (s1 s2 : t) (f : File) (index : Z) :
  same_config s1 s2 -> example_of s1 f index = example_of s2 f index.
Proof.
  intros Hc. pose proof Hc as (Hs & Hl & Hp & Hn).
  unfold _example_dict_iter. rewrite Hs, Hl, Hn.
  destruct (String.eqb (side s2) "tgt"); [done|].
  unfold selected_lines. rewrite Hp.
  by rewrite (src_lines_config s1 s2).
Qed.

Lemma tgt_feat_key_not_indices (j : Z) :
  ("tgt" +:+ "_feat_" +:+ pretty j)%string <> "indices"%string.
Proof. simpl. discriminate. Qed.

(** The record of a file carries the index it was built with. *)
Lemma example_dict_iter_indices (self : t) (f : File) (index : Z)
    (ex : gmap string Value) :
  side self = "src"%string \/ side self = "tgt"%string ->
  example_of self f index = Ok ex ->
  ex !! "indices"%string = Some (VInt index).
Proof.
  intros [Hside|Hside] Hex.
  - unfold _example_dict_iter in Hex. rewrite Hside in Hex. simpl in Hex.
    pose proof (src_lines_spec extract_text_features self
      (selected_lines self f)
      (<["indices"%string := VInt index]> (<["src"%string := VSents []]> ∅))
      [] Hside eq_refl) as Hrun.
    destruct (traverse _ _) as [rs|e].
    + destruct Hrun as (d' & Hd' & Hsrc & Hidx). rewrite Hd' in Hex.
      simpl in Hex. rewrite Hsrc in Hex. injection Hex as <-.
      rewrite lookup_insert_ne by done. rewrite Hidx.
      apply lookup_insert_eq.
    + by rewrite Hrun in Hex.
  - rewrite example_dict_iter_tgt in Hex by done.
    destruct (extract_text_features _) as [[[words feats] n]|e]; [|done].
    destruct feats as [|ft feats].
    + injection Hex as <-. apply lookup_insert_eq.
    + destruct (n_feats self) as [expected|]; [|done].
      destruct (expected =? n); [|done]. injection Hex as <-.
      rewrite update_feats_lookup_other by apply tgt_feat_key_not_indices.
      apply lookup_insert_eq.
Qed.

(** The examples of one shard of an iterator without associate are those of
    the first files of the file list, in order, numbered from the index after
    the one in the frame. *)
Lemma drain_independent_contents (files : list File) :
  forall (store : gmap nat t) (r : nat) (self : t) (fr : Frame) (fuel : nat),
    store !! r = Some self ->
    assoc_iter self = None ->
    filelist self = files ->
    0 < shard_size self ->
    0 <= cur_pos self ->
    Forall (fun f => 0 <= getsize f) files ->
    readable extract_text_features self files ->
    (length files < fuel)%nat ->
    exists (exs : list (gmap string Value)) (self' : t),
      drain extract_text_features fuel store r fr
      = Some (exs, StopIteration, <[r := self']> store)
      /\ Ok <$> exs
         = imap (fun k f =>
                   example_of self f (iteration_index fr + 1 + Z.of_nat k))
                (take (length exs) files).
Proof.
  induction files as [|f files IH];
    intros store r self fr fuel Hr Hnone Hfiles HB Hpos Hsizes Hread Hfuel.
  - destruct fuel as [|fuel]; [simpl in Hfuel; lia|].
    cbn [drain]. rewrite (next_independent_store _ _ _ self) by done.
    unfold resume_independent. rewrite Hfiles.
    by exists [], (set_eof true self).
  - destruct fuel as [|fuel]; [simpl in Hfuel; lia|].
    cbn [drain]. rewrite (next_independent_store _ _ _ self) by done.
    unfold resume_independent. rewrite Hfiles.
    cbn [shard_size cur_pos set_filelist set_cur_pos filelist].
    destruct (Z.eqb_spec (shard_size self) 0) as [?|_]; [lia|].
    destruct (Z.leb_spec 0 (cur_pos self)) as [_|?]; [|lia].
    cbn [negb andb].
    destruct (Z.leb_spec (shard_size self) (getsize f + cur_pos self))
      as [Hfull|Hfits].
    + by eexists [], _.
    + unfold emit. cbn [next_size iteration_index].
      set (self1 := set_file_index _ _).
      assert (Hc1 : same_config self1 self) by (by split_and!).
      destruct (Hread f (iteration_index fr + 1) self1) as [ex Hex];
        [by left|done|].
      rewrite Hex.
      inversion Hsizes as [|? ? Hf Hrest]; subst.
      edestruct (IH (<[r := self1]> store) r self1
                   {| iteration_index := iteration_index fr + 1;
                      next_size := Some (getsize f) |})
        as (exs & self' & Hrun & Hexs);
        [apply lookup_insert_eq|done|done|done| |done| |simpl in Hfuel;
         apply Nat.succ_lt_mono in Hfuel; exact Hfuel|].
      { subst self1. cbn. lia. }
      { eapply readable_same_config; [exact Hc1|].
        by eapply readable_tail. }
      rewrite Hrun. rewrite insert_insert_eq.
      exists (ex :: exs), self'. split; [done|].
      cbn [length take]. rewrite fmap_cons, imap_cons, Hexs.
      f_equal.
      * rewrite <- Hex. rewrite Z.add_0_r.
        symmetry. by apply example_dict_iter_config.
      * apply imap_ext. intros k g _. cbn [iteration_index compose].
        rewrite (example_dict_iter_config self1 self) by done.
        f_equal. lia.
Qed.

End ShardContents.

Section ShardTheorems.

Import ShardedHierarchicalTextCorpusIterator.

Variable extract_text_features :
  list string -> result (list string * list (list string) * Z).

Local Abbreviation example_of := (_example_dict_iter extract_text_features).
Local Abbreviation readable := (readable extract_text_features).
Local Abbreviation __iter__ := (__iter__ extract_text_features).

Lemma insert_same_inv (store : gmap nat t) (r : nat) (s1 s2 : t) :
  <[r := s1]> store = <[r := s2]> store -> s1 = s2.
Proof.
  intros Heq. assert (H : (<[r := s1]> store) !! r = (<[r := s2]> store) !! r)
    by (by rewrite Heq).
  rewrite !lookup_insert_eq in H. by injection H.
Qed.

(** X1: under a positive budget, a shard that starts empty ([cur_pos = 0])
    never reaches the budget: the sizes of the files it emits add up to less
    than [shard_size]; and when files remain after it, the first of them is
    the file that would have reached the budget, pushed back in front. *)
Theorem shard_stays_below_budget (store : gmap nat t) (r : nat) (self : t) :
  store !! r = Some self ->
  assoc_iter self = None ->
  0 < shard_size self ->
  cur_pos self = 0 ->
  Forall (fun f => 0 <= getsize f) (filelist self) ->
  readable self (filelist self) ->
  exists (exs : list (gmap string Value)) (self' : t),
    __iter__ store r = Some (exs, StopIteration, <[r := self']> store)
    /\ filelist self' = drop (length exs) (filelist self)
    /\ total_size (take (length exs) (filelist self)) < shard_size self
    /\ (forall f rest,
          filelist self' = f :: rest ->
          shard_size self
          <= getsize f + total_size (take (length exs) (filelist self))).
Proof.
  intros Hr Hnone HB Hpos Hsizes Hread.
  unfold Sharded.__iter__. rewrite Hr.
  destruct (independent_shard_budget extract_text_features (filelist self)
              store r self frame0 (S (length (filelist self))))
    as (exs & self' & Hrun & Hfl & Hbelow & Hpush); try done; try lia.
  exists exs, self'. rewrite Hpos in Hbelow, Hpush. split_and!; try done.
  destruct exs as [|ex exs]; [by cbn; rewrite take_0|].
  specialize (Hbelow ltac:(done)). lia.
Qed.

(** X2: a shard of an iterator without associate yields the examples of the
    first files of the file list, in directory order and none skipped; the
    example at position [k] of the shard is built with index [k], whatever
    the file index is; the files not emitted stay in the file list and
    [file_index] has advanced by the number of examples. *)
Theorem shard_is_prefix_in_order (store : gmap nat t) (r : nat) (self : t) :
  store !! r = Some self ->
  assoc_iter self = None ->
  0 < shard_size self ->
  0 <= cur_pos self ->
  Forall (fun f => 0 <= getsize f) (filelist self) ->
  readable self (filelist self) ->
  exists (exs : list (gmap string Value)) (self' : t),
    __iter__ store r = Some (exs, StopIteration, <[r := self']> store)
    /\ filelist self' = drop (length exs) (filelist self)
    /\ file_index self' = file_index self + len exs
    /\ Ok <$> exs
       = imap (fun k f => example_of self f (Z.of_nat k))
              (take (length exs) (filelist self))
    /\ (side self = "src"%string \/ side self = "tgt"%string ->
        forall k ex, exs !! k = Some ex ->
                     ex !! "indices"%string = Some (VInt (Z.of_nat k))).
Proof.
  intros Hr Hnone HB Hpos Hsizes Hread.
  unfold Sharded.__iter__. rewrite Hr.
  destruct (drain_independent_shard extract_text_features (filelist self)
              store r self frame0 (S (length (filelist self))))
    as (exs & self' & Hrun & Hlen & Hfl & Hfi & _); try done; try lia.
  destruct (drain_independent_contents extract_text_features (filelist self)
              store r self frame0 (S (length (filelist self))))
    as (exs2 & self2 & Hrun2 & Hexs); try done; try lia.
  rewrite Hrun in Hrun2. injection Hrun2 as <- _.
  exists exs, self'.
  assert (Hall : Ok <$> exs
                 = imap (fun k f => example_of self f (Z.of_nat k))
                        (take (length exs) (filelist self))).
  { rewrite Hexs. apply imap_ext. intros k f _. cbn. by f_equal. }
  split_and!; try done.
  intros Hside k ex Hk.
  assert (Hok : (Ok <$> exs) !! k = Some (Ok ex)).
  { by rewrite list_lookup_fmap, Hk. }
  rewrite Hall in Hok. apply list_lookup_imap_Some in Hok as (f & _ & Hbuild).
  symmetry in Hbuild.
  by eapply example_dict_iter_indices.
Qed.

(** X5: after a shard, [hit_end] answers true exactly when no file is left:
    the end of the directory is noticed in the shard that emits the last
    file, and a shard that stops at a boundary leaves the flag alone. *)
Theorem hit_end_iff_no_file_left (store : gmap nat t) (r : nat) (self : t) :
  store !! r = Some self ->
  assoc_iter self = None ->
  eof self = false ->
  0 < shard_size self ->
  0 <= cur_pos self ->
  Forall (fun f => 0 <= getsize f) (filelist self) ->
  readable self (filelist self) ->
  exists (exs : list (gmap string Value)) (self' : t),
    __iter__ store r = Some (exs, StopIteration, <[r := self']> store)
    /\ (hit_end self' = true <-> filelist self' = []).
Proof.
  intros Hr Hnone Heof HB Hpos Hsizes Hread.
  unfold Sharded.__iter__. rewrite Hr.
  destruct (drain_independent_shard extract_text_features (filelist self)
              store r self frame0 (S (length (filelist self))))
    as (exs & self' & Hrun & _ & _ & _ & _ & _ & _ & Hend & _);
    try done; try lia.
  exists exs, self'. split; [done|]. unfold hit_end.
  destruct Hend as [[Hnil He]|(Hmore & He & _)].
  - by rewrite Hnil, He.
  - rewrite He, Heof. split; [done|]. intros Hnil. by rewrite Hnil in Hmore.
Qed.

(** X6: asking an iterator whose file list is empty for a shard sets [eof]
    and yields nothing, for every [shard_size], zero included. *)
Theorem empty_directory_sets_eof (store : gmap nat t) (r : nat) (self : t) :
  store !! r = Some self ->
  assoc_iter self = None ->
  filelist self = [] ->
  __iter__ store r = Some ([], StopIteration, <[r := set_eof true self]> store)
  /\ hit_end (set_eof true self) = true.
Proof.
  intros Hr Hnone Hnil. split; [|done].
  unfold Sharded.__iter__. rewrite Hr, Hnil. cbn [length drain].
  rewrite (next_independent_store _ _ _ self) by done.
  unfold resume_independent. by rewrite Hnil.
Qed.

End ShardTheorems.

Section DependentShards.

Import ShardedHierarchicalTextCorpusIterator.

Variable extract_text_features :
  list string -> result (list string * list (list string) * Z).

Local Abbreviation example_of := (_example_dict_iter extract_text_features).
Local Abbreviation readable := (readable extract_text_features).
Local Abbreviation drain := (drain extract_text_features).
Local Abbreviation __iter__ := (__iter__ extract_text_features).

(** One shard of a dependent iterator, whatever the number of files it has
    left: it emits files until it is level with the associate or its file
    list is empty. *)
Lemma drain_associated_general (files : list File) :
  forall (store : gmap nat t) (d a : nat) (self assoc : t) (fr : Frame)
         (fuel : nat),
    store !! d = Some self ->
    assoc_iter self = Some a ->
    a <> d ->
    store !! a = Some assoc ->
    filelist self = files ->
    file_index self <= file_index assoc ->
    readable self files ->
    (length files < fuel)%nat ->
    let gap := file_index assoc - file_index self in
    exists (exs : list (gmap string Value)) (self' : t),
      drain fuel store d fr
      = Some (exs,
              if gap <=? len files
              then (if eof assoc then AttributeError else StopIteration)
              else AssertionError,
              <[d := self']> store)
      /\ len exs = Z.min gap (len files)
      /\ filelist self' = drop (length exs) files
      /\ file_index self' = file_index self + len exs
      /\ eof self' = (gap <=? len files) && eof assoc || eof self
      /\ Ok <$> exs
         = imap (fun k f =>
                   example_of self f (iteration_index fr + 1 + Z.of_nat k))
                (take (length exs) files).
Proof.
  induction files as [|f files IH];
    intros store d a self assoc fr fuel Hd Ha Hne Hassoc Hfiles Hfi Hread Hfuel
           gap.
  - destruct fuel as [|fuel]; [simpl in Hfuel; lia|].
    cbn [Sharded.drain].
    rewrite (next_associated_store _ _ _ _ self assoc) by done.
    unfold resume_associated. rewrite Hfiles. unfold len. cbn [length].
    destruct (Z.ltb_spec (file_index self) (file_index assoc)) as [Hlt|Hge].
    + destruct (Z.leb_spec gap (Z.of_nat 0)) as [?|_]; [subst gap; lia|].
      exists [], self. split_and!; try done; cbn; subst gap; lia.
    + destruct (Z.leb_spec gap (Z.of_nat 0)) as [_|?]; [|subst gap; lia].
      destruct (eof assoc) eqn:Heof.
      * exists [], (set_eof true self). split_and!; try done; cbn; subst gap; lia.
      * exists [], self. split_and!; try done; cbn; subst gap; lia.
  - destruct fuel as [|fuel]; [simpl in Hfuel; lia|].
    cbn [Sharded.drain].
    rewrite (next_associated_store _ _ _ _ self assoc) by done.
    unfold resume_associated. rewrite Hfiles.
    destruct (Z.ltb_spec (file_index self) (file_index assoc)) as [Hlt|Hge].
    + cbn [iteration_index].
      set (self1 := set_file_index _ _).
      assert (Hc1 : same_config self1 self) by (by split_and!).
      destruct (Hread f (iteration_index fr + 1) self1) as [ex Hex];
        [by left|done|].
      rewrite Hex.
      edestruct (IH (<[d := self1]> store) d a self1 assoc
                   {| iteration_index := iteration_index fr + 1;
                      next_size := next_size fr |})
        as (exs & self' & Hrun & Hn & Hfl & Hfi' & Heof & Hexs);
        [apply lookup_insert_eq|exact Ha|exact Hne
        |by rewrite lookup_insert_ne|done| | |
         simpl in Hfuel; apply Nat.succ_lt_mono in Hfuel; exact Hfuel|].
      { subst self1. cbn. lia. }
      { eapply readable_same_config; [exact Hc1|]. by eapply readable_tail. }
      rewrite Hrun, insert_insert_eq.
      assert (Hgap : file_index assoc - file_index self1 = gap - 1)
        by (subst self1 gap; cbn; lia).
      rewrite Hgap in Hrun, Hn, Heof.
      assert (Hlen : len (f :: files) = len files + 1)
        by (unfold len; cbn [length]; lia).
      exists (ex :: exs), self'.
      replace (gap <=? len (f :: files)) with (gap - 1 <=? len files)
        by (rewrite Hlen; apply eq_iff_eq_true;
            rewrite !Z.leb_le; lia).
      rewrite Hgap.
      split_and!; try done.
      * unfold len in *. cbn [length]. lia.
      * rewrite Hfi'. subst self1. unfold len. cbn. lia.
      * cbn [length take]. rewrite fmap_cons, imap_cons, Hexs. f_equal.
        -- rewrite <- Hex, Z.add_0_r. symmetry.
           by apply example_dict_iter_config.
        -- apply imap_ext. intros k g _. cbn [iteration_index compose].
           rewrite (example_dict_iter_config _ self1 self) by done.
           f_equal. lia.
    + assert (Hgap : (gap <=? len (f :: files)) = true).
      { apply Z.leb_le. subst gap. pose proof (len_nonneg (f :: files)). lia. }
      rewrite Hgap.
      destruct (eof assoc) eqn:Heof.
      * exists [], (set_eof true self). split_and!; try done;
          unfold len in *; cbn [length file_index set_eof] in *; subst gap;
          lia.
      * exists [], self. split_and!; try done;
          unfold len in *; cbn [length] in *; subst gap; lia.
Qed.

(** X3: a shard of a dependent iterator that has enough files emits exactly
    as many examples as the associate is ahead, built from its next files in
    order and numbered from 0 like the associate's, and stops with the same
    file index; it never passes the associate. *)
Theorem dependent_shard_catches_up (store : gmap nat t) (d a : nat)
    (self assoc : t) :
  store !! d = Some self ->
  assoc_iter self = Some a ->
  a <> d ->
  store !! a = Some assoc ->
  file_index self <= file_index assoc ->
  file_index assoc - file_index self <= len (filelist self) ->
  readable self (filelist self) ->
  exists (exs : list (gmap string Value)) (self' : t),
    __iter__ store d
    = Some (exs, if eof assoc then AttributeError else StopIteration,
            <[d := self']> store)
    /\ len exs = file_index assoc - file_index self
    /\ file_index self' = file_index assoc
    /\ filelist self' = drop (length exs) (filelist self)
    /\ Ok <$> exs
       = imap (fun k f => example_of self f (Z.of_nat k))
              (take (length exs) (filelist self)).
Proof.
  intros Hd Ha Hne Hassoc Hfi Hgap Hread.
  unfold Sharded.__iter__. rewrite Hd.
  destruct (drain_associated_general (filelist self) store d a self assoc
              frame0 (S (length (filelist self))))
    as (exs & self' & Hrun & Hn & Hfl & Hfi' & _ & Hexs); try done; try lia.
  destruct (Z.leb_spec (file_index assoc - file_index self)
                       (len (filelist self))) as [_|?]; [|lia].
  exists exs, self'. split_and!; try done; lia.
Qed.

(** X4: a dependent iterator with fewer files left than the associate is
    ahead emits all the files it has and then raises the assertion error of
    lines 390 and 391; its [eof] flag is not touched. *)
Theorem dependent_shard_mismatch (store : gmap nat t) (d a : nat)
    (self assoc : t) :
  store !! d = Some self ->
  assoc_iter self = Some a ->
  a <> d ->
  store !! a = Some assoc ->
  len (filelist self) < file_index assoc - file_index self ->
  readable self (filelist self) ->
  exists (exs : list (gmap string Value)) (self' : t),
    __iter__ store d = Some (exs, AssertionError, <[d := self']> store)
    /\ length exs = length (filelist self)
    /\ filelist self' = []
    /\ eof self' = eof self.
Proof.
  intros Hd Ha Hne Hassoc Hgap Hread.
  pose proof (len_nonneg (filelist self)) as Hnn.
  unfold Sharded.__iter__. rewrite Hd.
  destruct (drain_associated_general (filelist self) store d a self assoc
              frame0 (S (length (filelist self))))
    as (exs & self' & Hrun & Hn & Hfl & Hfi' & Heof & _); try done; try lia.
  destruct (Z.leb_spec (file_index assoc - file_index self)
                       (len (filelist self))) as [?|_]; [lia|].
  assert (Hlen : length exs = length (filelist self))
    by (unfold len in *; lia).
  exists exs, self'. split_and!; try done.
  by rewrite Hfl, Hlen, drop_all.
Qed.

(** X7: [num_feats] only peeks. When the first line of the first file can be
    read, the file list is what it was and [n_feats] holds the count
    returned; on an empty file list it raises [StopIteration]; when the
    feature extractor raises, the file that was peeked is gone from the
    file list. *)
Theorem num_feats_peeks (self : t) :
  match filelist self with
  | [] => num_feats extract_text_features self = (Raise StopIteration, self)
  | path :: rest =>
      let first := match readlines path with
                   | [] => EmptyString
                   | l :: _ => l
                   end in
      match extract_text_features
              (truncate_line (line_truncate self) (split first)) with
      | Ok (_, _, n) =>
          num_feats extract_text_features self
          = (Ok n, set_n_feats (Some n) self)
      | Raise e =>
          num_feats extract_text_features self
          = (Raise e, set_filelist rest self)
      end
  end.
Proof.
  unfold num_feats. destruct self as [fl lt pt sd sz cp ai lp fi ef nf].
  cbn [filelist line_truncate set_filelist].
  destruct fl as [|path rest]; [done|].
  cbn [line_truncate].
  by destruct (extract_text_features _) as [[[? ?] n]|e].
Qed.


End DependentShards.

Lemma shard_stays_below_budget_witness :
  exists (exs : list (gmap string Value)) (self' : Sharded.t),
    Sharded.__iter__ Samples.no_features
      {[0%nat := Sharded.__init__ Samples.src_dir 0 "src" 20 None]} 0%nat
    = Some (exs, StopIteration,
            <[0%nat := self']>
              {[0%nat := Sharded.__init__ Samples.src_dir 0 "src" 20 None]})
    /\ Sharded.filelist self' = drop (length exs) Samples.src_dir
    /\ total_size (take (length exs) Samples.src_dir) < 20
    /\ (forall f rest,
          Sharded.filelist self' = f :: rest ->
          20 <= getsize f + total_size (take (length exs) Samples.src_dir)).
Proof.
  apply (shard_stays_below_budget Samples.no_features
           {[0%nat := Sharded.__init__ Samples.src_dir 0 "src" 20 None]}
           0%nat (Sharded.__init__ Samples.src_dir 0 "src" 20 None)).
  - reflexivity.
  - reflexivity.
  - simpl. lia.
  - reflexivity.
  - repeat constructor; simpl; lia.
  - apply src_dir_readable.
Defined.

Lemma shard_is_prefix_in_order_witness :
  exists (exs : list (gmap string Value)) (self' : Sharded.t),
    Sharded.__iter__ Samples.no_features
      {[0%nat := Sharded.__init__ Samples.src_dir 0 "src" 20 None]} 0%nat
    = Some (exs, StopIteration,
            <[0%nat := self']>
              {[0%nat := Sharded.__init__ Samples.src_dir 0 "src" 20 None]})
    /\ Sharded.file_index self' = -1 + len exs.
Proof.
  destruct (shard_is_prefix_in_order Samples.no_features
              {[0%nat := Sharded.__init__ Samples.src_dir 0 "src" 20 None]}
              0%nat (Sharded.__init__ Samples.src_dir 0 "src" 20 None))
    as (exs & self' & Hrun & _ & Hfi & _).
  - reflexivity.
  - reflexivity.
  - simpl. lia.
  - simpl. lia.
  - repeat constructor; simpl; lia.
  - apply src_dir_readable.
  - by exists exs, self'.
Defined.

Lemma hit_end_iff_no_file_left_witness :
  exists (exs : list (gmap string Value)) (self' : Sharded.t),
    Sharded.__iter__ Samples.no_features
      {[0%nat := Sharded.__init__ Samples.src_dir 0 "src" 20 None]} 0%nat
    = Some (exs, StopIteration,
            <[0%nat := self']>
              {[0%nat := Sharded.__init__ Samples.src_dir 0 "src" 20 None]})
    /\ (Sharded.hit_end self' = true <-> Sharded.filelist self' = []).
Proof.
  apply (hit_end_iff_no_file_left Samples.no_features
           {[0%nat := Sharded.__init__ Samples.src_dir 0 "src" 20 None]}
           0%nat (Sharded.__init__ Samples.src_dir 0 "src" 20 None)).
  - reflexivity.
  - reflexivity.
  - reflexivity.
  - simpl. lia.
  - simpl. lia.
  - repeat constructor; simpl; lia.
  - apply src_dir_readable.
Defined.

Lemma empty_directory_sets_eof_witness :
  Sharded.__iter__ Samples.no_features
    {[0%nat := Sharded.__init__ [] 0 "src" 0 None]} 0%nat
  = Some ([], StopIteration,
          <[0%nat := Sharded.set_eof true (Sharded.__init__ [] 0 "src" 0 None)]>
            {[0%nat := Sharded.__init__ [] 0 "src" 0 None]})
  /\ Sharded.hit_end
       (Sharded.set_eof true (Sharded.__init__ [] 0 "src" 0 None)) = true.
Proof.
  apply (empty_directory_sets_eof Samples.no_features
           {[0%nat := Sharded.__init__ [] 0 "src" 0 None]} 0%nat
           (Sharded.__init__ [] 0 "src" 0 None)); reflexivity.
Defined.

Lemma dependent_shard_catches_up_witness :
  exists (exs : list (gmap string Value)) (self' : Sharded.t),
    Sharded.__iter__ Samples.no_features Samples.caught_up_store 1%nat
    = Some (exs, AttributeError, <[1%nat := self']> Samples.caught_up_store)
    /\ len exs = 2
    /\ Sharded.file_index self' = 1.
Proof.
  destruct (dependent_shard_catches_up Samples.no_features
              Samples.caught_up_store 1%nat 0%nat
              (Sharded.__init__ Samples.tgt_dir 0 "tgt" 0 (Some 0%nat))
              Samples.finished_src)
    as (exs & self' & Hrun & Hn & Hfi & _).
  - reflexivity.
  - reflexivity.
  - lia.
  - reflexivity.
  - simpl. lia.
  - vm_compute. discriminate.
  - apply tgt_dir_readable.
  - by exists exs, self'.
Defined.

Lemma dependent_shard_mismatch_witness :
  exists (exs : list (gmap string Value)) (self' : Sharded.t),
    Sharded.__iter__ Samples.no_features Samples.short_tgt_store 1%nat
    = Some (exs, AssertionError, <[1%nat := self']> Samples.short_tgt_store)
    /\ length exs = 1%nat
    /\ Sharded.filelist self' = []
    /\ Sharded.eof self' = false.
Proof.
  apply (dependent_shard_mismatch Samples.no_features
           Samples.short_tgt_store 1%nat 0%nat
           (Sharded.__init__ (take 1 Samples.tgt_dir) 0 "tgt" 0 (Some 0%nat))
           Samples.finished_src).
  - reflexivity.
  - reflexivity.
  - lia.
  - reflexivity.
  - vm_compute. reflexivity.
  - intros f index self' Hf Hc. apply (tgt_dir_readable 0 (Some 0%nat)).
    + apply list_elem_of_In in Hf. simpl in Hf. destruct Hf as [<-|[]].
      by left.
    + exact Hc.
Defined.


(** ** Further properties of the corpus reader *)

Section ReadTextDir.

Import HierarchicalTextDataset.

Variable extract_text_features :
  list string -> result (list string * list (list string) * Z).

Local Abbreviation read_text_dir := (read_text_dir extract_text_features).
Local Abbreviation file_sentences := (file_sentences extract_text_features).

Lemma read_src_lines_spec (truncate : Z) (ls : list string)
    (d : gmap string Value) (fr : ReadFrame) (ss : list (list string)) :
  d !! "src"%string = Some (VSents ss) ->
  match traverse (fun l => extract_text_features
                             (truncate_line truncate (split l))) ls with
  | Ok rs =>
      exists d' fr',
        read_src_lines extract_text_features truncate "src" d fr ls
        = (Ok d', fr')
        /\ d' !! "src"%string = Some (VSents (ss ++ map line_words rs))
        /\ d' !! "indices"%string = d !! "indices"%string
        /\ (ls <> [] -> n_feats fr' <> None)
        /\ (n_feats fr <> None -> n_feats fr' <> None)
  | Raise e =>
      fst (read_src_lines extract_text_features truncate "src" d fr ls)
      = Raise e
  end.
Proof.
  revert d fr ss. induction ls as [|l ls IH]; intros d fr ss Hd.
  - cbn. exists d, fr. rewrite app_nil_r. by split_and!.
  - cbn [traverse read_src_lines].
    destruct (extract_text_features _) as [[[words feats] n]|e]; [|done].
    rewrite Hd.
    set (d1 := if feats is [] then <["src"%string := VSents (ss ++ [words])]> d
               else update_feats "src" feats
                      (<["src"%string := VSents (ss ++ [words])]> d)).
    assert (Hd1 : d1 !! "src"%string = Some (VSents (ss ++ [words]))).
    { subst d1. destruct feats.
      - by rewrite lookup_insert_eq.
      - rewrite update_feats_lookup_other by apply feat_key_not_src.
        by rewrite lookup_insert_eq. }
    assert (Hi1 : d1 !! "indices"%string = d !! "indices"%string).
    { subst d1. destruct feats.
      - by rewrite lookup_insert_ne.
      - rewrite update_feats_lookup_other by apply feat_key_not_indices.
        by rewrite lookup_insert_ne. }
    specialize (IH d1 {| line := Some (truncate_line truncate (split l));
                         n_feats := Some n |} _ Hd1).
    destruct (traverse _ ls) as [rs|e].
    + destruct IH as (d' & fr' & Hrun & Hsrc & Hidx & _ & Hn).
      exists d', fr'. split_and!; try done.
      * rewrite Hsrc. cbn [map]. by rewrite <- app_assoc.
      * congruence.
      * intros _. by apply Hn.
      * intros _. by apply Hn.
    + exact IH.
Qed.

Local Abbreviation src_record := (src_record extract_text_features).

Lemma read_text_files_src (truncate : Z) (files : list (Z * File)) :
  forall fr : ReadFrame,
    Forall (fun if_ => exists ss, file_sentences truncate (snd if_) = Ok ss)
           files ->
    (n_feats fr <> None
     \/ match files with
        | [] => True
        | if_ :: _ => readlines (snd if_) <> []
        end) ->
    exists recs,
      read_text_files extract_text_features truncate "src" files fr
      = (recs, StopIteration)
      /\ Forall2 (src_record truncate) files recs.
Proof.
  induction files as [|[i f] files IH]; intros fr Hall Hfirst.
  - exists []. by split.
  - apply Forall_cons in Hall as [[ss Hss] Hall].
    cbn [read_text_files]. unfold read_text_file.
    change (String.eqb "src" "tgt") with false. cbn iota.
    pose proof (read_src_lines_spec truncate (readlines f)
      (<["indices"%string := VInt i]> (<["src"%string := VSents []]> ∅))
      fr [] eq_refl) as Hrun.
    unfold HierarchicalTextDataset.file_sentences in Hss. cbn [snd] in Hss.
    destruct (traverse _ (readlines f)) as [rs|e] eqn:Htr; [|done].
    injection Hss as <-.
    destruct Hrun as (d' & fr' & Hrun & Hsrc & Hidx & Hne & Hkeep).
    rewrite Hrun, Hsrc.
    assert (Hn : n_feats fr' <> None).
    { destruct Hfirst as [Hfr|Hlines]; [by apply Hkeep|by apply Hne]. }
    destruct (n_feats fr') as [n|] eqn:Hnf; [|done].
    destruct (IH fr' Hall) as (recs & Hrest & Hrecs).
    { left. by rewrite Hnf. }
    rewrite Hrest. eexists. split; [reflexivity|].
    constructor; [|done].
    exists (map line_words rs). cbn [fst snd]. split_and!.
    + unfold HierarchicalTextDataset.file_sentences. by rewrite Htr.
    + by rewrite lookup_insert_eq.
    + rewrite lookup_insert_ne by done. rewrite Hidx.
      apply lookup_insert_eq.
Qed.

(** X9: in src mode [read_text_dir] yields one record per file, in
    directory order, when every line can be read and the first file has a
    line: the record of the file at position [k] has [indices = k] and holds
    the sentences of all its lines, each cut to [truncate] tokens, under the
    outer truncation window. The number of lines read is not capped. *)
Theorem read_text_dir_src_records (path : list File) (truncate : Z) :
  Forall (fun f => exists ss, file_sentences truncate f = Ok ss) path ->
  match path with
  | [] => True
  | f :: _ => readlines f <> []
  end ->
  exists recs,
    read_text_dir path truncate "src" = (recs, StopIteration)
    /\ Forall2 (src_record truncate) (enumerate path) recs.
Proof.
  intros Hall Hfirst. unfold HierarchicalTextDataset.read_text_dir.
  apply read_text_files_src.
  - unfold enumerate. apply Forall_forall. intros [i f] Hin.
    apply elem_of_lookup_imap in Hin as (k & g & [= -> ->] & Hk).
    rewrite Forall_forall in Hall. apply Hall.
    by eapply list_elem_of_lookup_2.
  - right. by destruct path.
Qed.

(** X10: in src mode a first file without any line ends [read_text_dir]
    with an unbound local: line 221 yields [n_feats], which only the loop
    over the lines binds. Nothing is yielded, also for the files after it. *)
Theorem read_text_dir_empty_first_file (f : File) (rest : list File)
    (truncate : Z) :
  readlines f = [] ->
  read_text_dir (f :: rest) truncate "src" = ([], UnboundLocalError).
Proof.
  intros Hempty. unfold HierarchicalTextDataset.read_text_dir.
  cbn [enumerate imap read_text_files]. unfold read_text_file.
  change (String.eqb "src" "tgt") with false. cbn iota.
  rewrite Hempty. cbn [read_src_lines].
  by rewrite lookup_insert_ne, lookup_insert_eq.
Qed.

Local Abbreviation make_text_examples_nfeats_tpl :=
  (make_text_examples_nfeats_tpl extract_text_features).

(** X11: [make_text_examples_nfeats_tpl] at its edges. A side other than
    src and tgt fails the assertion; without a path it returns no iterator
    and 0 features; on an empty directory the peek raises [StopIteration];
    on the tgt side the peek raises the unbound local of [read_text_dir], so
    no target directory with a file can be read through it. *)
Theorem make_text_examples_edges (truncate : Z) :
  (forall path side,
      side <> "src"%string -> side <> "tgt"%string ->
      make_text_examples_nfeats_tpl path truncate side = Raise AssertionError)
  /\ make_text_examples_nfeats_tpl None truncate "src" = Ok (None, 0)
  /\ make_text_examples_nfeats_tpl None truncate "tgt" = Ok (None, 0)
  /\ make_text_examples_nfeats_tpl (Some []) truncate "src"
     = Raise StopIteration
  /\ make_text_examples_nfeats_tpl (Some []) truncate "tgt"
     = Raise StopIteration
  /\ (forall f rest,
        make_text_examples_nfeats_tpl (Some (f :: rest)) truncate "tgt"
        = Raise UnboundLocalError).
Proof.
  split_and!; try done.
  intros path side Hsrc Htgt.
  unfold HierarchicalTextDataset.make_text_examples_nfeats_tpl.
  destruct (String.eqb_spec side "src"); [done|].
  by destruct (String.eqb_spec side "tgt").
Qed.

(** X12: on the src side the peek at the first example loses nothing: when
    every line can be read and the first file has a line, the iterator
    returned holds one example per file of the directory, in order, ends
    regularly, and the feature count returned is that of the first
    example. *)
Theorem make_text_examples_src (f : File) (rest : list File) (truncate : Z) :
  Forall (fun g => exists ss, file_sentences truncate g = Ok ss) (f :: rest) ->
  readlines f <> [] ->
  exists recs,
    read_text_dir (f :: rest) truncate "src" = (recs, StopIteration)
    /\ length recs = S (length rest)
    /\ make_text_examples_nfeats_tpl (Some (f :: rest)) truncate "src"
       = Ok (Some (map fst recs, StopIteration),
             match recs with
             | [] => 0
             | first_ex :: _ => snd first_ex
             end).
Proof.
  intros Hall Hfirst.
  destruct (read_text_files_src truncate (enumerate (f :: rest))
              {| line := None; n_feats := None |})
    as (recs & Hrun & Hrecs).
  - unfold enumerate. apply Forall_forall. intros [i g] Hin.
    apply elem_of_lookup_imap in Hin as (k & h & [= -> ->] & Hk).
    rewrite Forall_forall in Hall. apply Hall.
    by eapply list_elem_of_lookup_2.
  - by right.
  - exists recs. split; [done|].
    apply Forall2_length in Hrecs.
    unfold enumerate in Hrecs. rewrite length_imap in Hrecs. cbn in Hrecs.
    split; [done|].
    unfold HierarchicalTextDataset.make_text_examples_nfeats_tpl.
    change (String.eqb "src" "src") with true. cbn [negb orb].
    unfold HierarchicalTextDataset.read_text_dir. rewrite Hrun.
    destruct recs; [done|done].
Qed.

(** X13: with [line_truncate = 0] the sharded iterator's [num_feats] and
    [get_num_features] count the features of the same line, the first line
    of the first file; they differ on an empty directory only, where the
    first raises [StopIteration] and the second [IndexError]. *)
Theorem num_feats_agrees_with_get_num_features (self : Sharded.t)
    (side : string) :
  Sharded.line_truncate self = 0 ->
  match Sharded.filelist self with
  | [] =>
      fst (Sharded.num_feats extract_text_features self) = Raise StopIteration
      /\ get_num_features extract_text_features [] side = Raise IndexError
  | _ :: _ =>
      fst (Sharded.num_feats extract_text_features self)
      = get_num_features extract_text_features (Sharded.filelist self) side
  end.
Proof.
  intros Hlt. unfold Sharded.num_feats, get_num_features.
  destruct (Sharded.filelist self) as [|f rest]; [done|].
  cbn [Sharded.line_truncate Sharded.set_filelist]. rewrite Hlt.
  unfold readline, getitem. change (Z.to_nat 0) with 0%nat. simpl.
  by destruct (extract_text_features _) as [[[? ?] n]|e].
Qed.

End ReadTextDir.

(** ** Further properties of the dataset assembler *)

Section Assembler.

Import HierarchicalTextDataset.

Variables UNK_WORD PAD_WORD : string.
Variable Vocab_new : list string -> list string -> Vocab.
Variable Field : Type.
Variable preprocess : Field -> Value -> Value.

Local Abbreviation dynamic_dict_step :=
  (dynamic_dict_step UNK_WORD PAD_WORD Vocab_new).
Local Abbreviation _dynamic_dict := (_dynamic_dict UNK_WORD PAD_WORD Vocab_new).
Local Abbreviation build_examples :=
  (build_examples UNK_WORD PAD_WORD Vocab_new Field preprocess).
Local Abbreviation __init__ :=
  (__init__ UNK_WORD PAD_WORD Vocab_new Field preprocess).

Local Abbreviation joined := joined_examples.

Lemma traverse_Forall2 {A B : Type} (f : A -> result B) (l : list A)
    (ys : list B) :
  traverse f l = Ok ys -> Forall2 (fun x y => f x = Ok y) l ys.
Proof.
  revert ys. induction l as [|x l IH]; intros ys Hys; simpl in Hys.
  - injection Hys as <-. constructor.
  - destruct (f x) as [y|e] eqn:Hx; [|done].
    destruct (traverse f l) as [ys'|e]; [|done].
    injection Hys as <-. constructor; [done|by apply IH].
Qed.

(** The vocabulary the builder makes for an example. *)
Local Abbreviation has_vocab ex v :=
  (exists v0 src, ex !! "src"%string = Some v0 /\ sentences_of v0 = Ok src
                  /\ v = Vocab_new (concat src) [UNK_WORD; PAD_WORD]).

Lemma dynamic_dict_step_ok (vs : list Vocab) (ex ex' : gmap string Value)
    (vs' : list Vocab) :
  dynamic_dict_step vs ex = (Ok ex', vs') ->
  exists v, vs' = vs ++ [v] /\ has_vocab ex v.
Proof.
  unfold HierarchicalTextDataset.dynamic_dict_step.
  destruct (ex !! "src"%string) as [v0|] eqn:Hsrc; [|done].
  destruct (sentences_of v0) as [src|e] eqn:Hsents; [|done].
  destruct (LongTensor2 _) as [m|e]; [|done].
  intros Hstep. eexists. split; [|by exists v0, src].
  destruct (_ !! "tgt"%string) as [tv|]; [|by injection Hstep].
  destruct (words_of tv); [by injection Hstep|done].
Qed.

(** When [_dynamic_dict] runs to the end of its input it has yielded one
    example and appended one vocabulary per example, in order. *)
Lemma dynamic_dict_all (exs : list (gmap string Value)) :
  forall (vs : list Vocab) (out : list (gmap string Value))
         (vs' : list Vocab),
    _dynamic_dict vs exs = (out, None, vs') ->
    length out = length exs
    /\ exists new, vs' = vs ++ new
                   /\ Forall2 (fun ex v => has_vocab ex v) exs new.
Proof.
  induction exs as [|ex exs IH]; intros vs out vs' Hrun; simpl in Hrun.
  - injection Hrun as <- <-. split; [done|]. exists [].
    by rewrite app_nil_r.
  - destruct (dynamic_dict_step vs ex) as [[ex1|e] vs1] eqn:Hstep; [|done].
    destruct (_dynamic_dict vs1 exs) as [[out1 e1] vs2] eqn:Hrest.
    injection Hrun as <- -> <-.
    apply dynamic_dict_step_ok in Hstep as (v & -> & Hv).
    destruct (IH _ _ _ Hrest) as (Hlen & new & -> & Hnew).
    split; [simpl; by rewrite Hlen|].
    exists (v :: new). rewrite <- app_assoc. split; [done|].
    by constructor.
Qed.

Lemma build_examples_inv (fields : gmap string Field)
    (src : list (gmap string Value))
    (tgt : option (list (gmap string Value))) (dynamic_dict : bool)
    (out : list (gmap string Value)) (out_fields : list (string * option Field))
    (vocabs : list Vocab) :
  build_examples fields src tgt dynamic_dict = Ok (out, out_fields, vocabs) ->
  exists exs ex0 rest,
    (if dynamic_dict then _dynamic_dict [] (joined src tgt)
     else (joined src tgt, None, [])) = (exs, None, vocabs)
    /\ exs = ex0 :: rest
    /\ out_fields = map (fun k => (k, fields !! k)) (map_to_list ex0).*1
    /\ Forall2 (fun ex o =>
                  exists vals,
                    Forall2 (fun k v => ex !! k = Some v)
                            (map_to_list ex0).*1 vals
                    /\ o = _construct_example_fromlist Field preprocess vals
                             out_fields
                    /\ exists n, attr_len o "src" = Ok n)
               exs out.
Proof.
  unfold HierarchicalTextDataset.build_examples.
  destruct (if dynamic_dict then _ else _) as [[exs stopped] vs] eqn:Hdd.
  destruct exs as [|ex0 rest]; [by destruct stopped|].
  set (keys := (map_to_list ex0).*1).
  set (out_fields0 := map (fun k => (k, fields !! k)) keys).
  destruct (traverse _ (ex0 :: rest)) as [outs|e] eqn:Htr; [|done].
  simpl. destruct stopped; [done|]. intros [= <- <- <-].
  exists (ex0 :: rest), ex0, rest. split_and!; try done.
  apply traverse_Forall2 in Htr.
  eapply Forall2_impl; [exact Htr|]. intros ex o Ho. simpl in Ho.
  destruct (traverse _ keys) as [vals|e] eqn:Hvals; [|done]. simpl in Ho.
  destruct (attr_len _ _) as [n|e] eqn:Hn; [|done]. simpl in Ho.
  injection Ho as <-. exists vals. split_and!; try done; [|by exists n].
  apply traverse_Forall2 in Hvals.
  eapply Forall2_impl; [exact Hvals|]. intros k v Hk. simpl in Hk.
  by destruct (ex !! k); [injection Hk as ->|].
Qed.

Lemma init_inv (fields : gmap string Field) (src : list (gmap string Value))
    (tgt : option (list (gmap string Value)))
    (nsf ntf ssl tsl : Z) (dynamic_dict use_filter_pred : bool)
    (ds : t Field) :
  __init__ fields src tgt nsf ntf ssl tsl dynamic_dict use_filter_pred = Ok ds ->
  build_examples fields src tgt dynamic_dict
  = Ok (examples Field ds, HierarchicalTextDataset.fields Field ds,
        src_vocabs Field ds).
Proof.
  unfold HierarchicalTextDataset.__init__.
  destruct (build_examples _ _ _ _) as [[[out out_fields] vocabs]|e]; [|done].
  simpl. rewrite Dataset_filter_true. simpl. by intros [= <-].
Qed.

(** X14: an empty stream of examples makes the constructor fail at the peek
    of line 70 with [StopIteration]: an empty source stream, or an empty
    target stream whatever the source holds. *)
Theorem init_empty_stream_raises (fields : gmap string Field)
    (src : list (gmap string Value))
    (tgt : option (list (gmap string Value)))
    (nsf ntf ssl tsl : Z) (dynamic_dict use_filter_pred : bool) :
  __init__ fields [] tgt nsf ntf ssl tsl dynamic_dict use_filter_pred
  = Raise StopIteration
  /\ __init__ fields src (Some []) nsf ntf ssl tsl dynamic_dict
       use_filter_pred
     = Raise StopIteration.
Proof.
  unfold HierarchicalTextDataset.__init__,
    HierarchicalTextDataset.build_examples.
  split.
  - by destruct tgt, dynamic_dict.
  - replace (zip_with _join_dicts src []) with (@nil (gmap string Value))
      by (by destruct src).
    by destruct dynamic_dict.
Qed.

(** X15: the dataset holds one example per joined pair: source and target
    streams are zipped, so the longer one is cut to the length of the
    shorter without an error; and with the dynamic dictionary there is one
    vocabulary per example, in the order of the examples, built from the
    tokens of that example's source. Without it [src_vocabs] stays empty. *)
Theorem init_one_example_per_pair (fields : gmap string Field)
    (src : list (gmap string Value))
    (tgt : option (list (gmap string Value)))
    (nsf ntf ssl tsl : Z) (dynamic_dict use_filter_pred : bool)
    (ds : t Field) :
  __init__ fields src tgt nsf ntf ssl tsl dynamic_dict use_filter_pred = Ok ds ->
  length (examples Field ds)
  = match tgt with
    | Some tgts => Nat.min (length src) (length tgts)
    | None => length src
    end
  /\ if dynamic_dict
     then Forall2 (fun ex v => has_vocab ex v) (joined src tgt)
                  (src_vocabs Field ds)
     else src_vocabs Field ds = [].
Proof.
  intros Hinit%init_inv.
  apply build_examples_inv in Hinit
    as (exs & ex0 & rest & Hdd & _ & _ & Hout).
  apply Forall2_length in Hout.
  assert (Hjoined : length (joined src tgt)
                    = match tgt with
                      | Some tgts => Nat.min (length src) (length tgts)
                      | None => length src
                      end).
  { destruct tgt; [apply length_zip_with|done]. }
  destruct dynamic_dict.
  - apply dynamic_dict_all in Hdd as (Hlen & new & Hnew & Hvocabs).
    simpl in Hnew. subst new. split; [congruence|done].
  - injection Hdd as <- <-. split; [congruence|done].
Qed.

Lemma out_fields_keys (fields : gmap string Field) (keys : list string) :
  (map (fun k => (k, fields !! k)) keys).*1 = keys.
Proof.
  induction keys as [|k ks IH]; [done|].
  cbn [map]. rewrite fmap_cons. cbn [fst]. by rewrite IH.
Qed.

Lemma construct_keys (fields : gmap string Field) (keys : list string)
    (vals : list Value) :
  length keys = length vals ->
  (zip_with (fun (kf : string * option Field) (v : Value) =>
               (fst kf, match snd kf with
                        | Some f => preprocess f v
                        | None => v
                        end))
            (map (fun k => (k, fields !! k)) keys) vals).*1
  = keys.
Proof.
  revert vals. induction keys as [|k ks IH]; intros [|v vals] Hlen;
    simpl in Hlen; try done.
  cbn [map zip_with]. rewrite fmap_cons. cbn [fst].
  rewrite IH by lia. done.
Qed.

(** X16: every example of a dataset has the attributes of the first joined
    example and no other, and a source with a length; so [sort_key] is
    defined on it as soon as its target, if it has one, has a length. *)
Theorem init_examples_share_schema (fields : gmap string Field)
    (src : list (gmap string Value))
    (tgt : option (list (gmap string Value)))
    (nsf ntf ssl tsl : Z) (dynamic_dict use_filter_pred : bool)
    (ds : t Field) (ex : gmap string Value) :
  __init__ fields src tgt nsf ntf ssl tsl dynamic_dict use_filter_pred = Ok ds ->
  ex ∈ examples Field ds ->
  (forall k, is_Some (ex !! k)
             <-> k ∈ (HierarchicalTextDataset.fields Field ds).*1)
  /\ exists n,
       0 <= n /\ attr_len ex "src" = Ok n
       /\ (ex !! "tgt"%string = None -> sort_key ex = Ok (n, None))
       /\ (forall ws, ex !! "tgt"%string = Some (VWords ws) ->
                      sort_key ex = Ok (n, Some (len ws))).
Proof.
  intros Hinit%init_inv Hex.
  apply build_examples_inv in Hinit
    as (exs & ex0 & rest & _ & _ & Hfields & Hout).
  apply list_elem_of_lookup in Hex as [i Hi].
  destruct (Forall2_lookup_r _ _ _ _ _ Hout Hi)
    as (ex1 & _ & vals & Hvals & -> & n & Hn).
  split.
  - intros k. unfold _construct_example_fromlist.
    set (l := zip_with _ _ vals).
    assert (Hkeys : l.*1 = (HierarchicalTextDataset.fields Field ds).*1).
    { subst l. rewrite Hfields. apply Forall2_length in Hvals.
      rewrite construct_keys by done. by rewrite out_fields_keys. }
    rewrite <- Hkeys. rewrite <- not_eq_None_Some.
    rewrite <- (not_elem_of_list_to_map (M := gmap string)).
    destruct (decide (k ∈ l.*1)); naive_solver.
  - exists n. split_and!; try done.
    + unfold attr_len in Hn.
      destruct (_ !! "src"%string) as [v|]; [|done].
      destruct v; simpl in Hn; try done; injection Hn as <-; apply len_nonneg.
    + intros Hnone. unfold sort_key. by rewrite Hnone, Hn.
    + intros ws Hws. unfold sort_key. by rewrite Hws, Hn.
Qed.

(** X17: on a document with sentences of one length and a target of words,
    the builder adds an alignment of [len(tgt) + 2] indices: 0 for the two
    boundary markers, and for each target word its slot in the example's own
    vocabulary; it adds [src_map], and leaves every other key of the example
    as it was. *)
Theorem dynamic_dict_alignment (vs : list Vocab)
    (example : gmap string Value) (src : list (list string))
    (tgt : list string) (n : nat) :
  example !! "src"%string = Some (VSents src) ->
  example !! "tgt"%string = Some (VWords tgt) ->
  Forall (fun seq => length seq = n) src ->
  let src_vocab := Vocab_new (concat src) [UNK_WORD; PAD_WORD] in
  exists ex' align,
    dynamic_dict_step vs example = (Ok ex', vs ++ [src_vocab])
    /\ ex' !! "alignment"%string = Some (VLongTensor1 align)
    /\ len align = len tgt + 2
    /\ align !! 0%nat = Some 0
    /\ align !! S (length tgt) = Some 0
    /\ (forall k w, tgt !! k = Some w ->
                    align !! S k = Some (stoi src_vocab w))
    /\ ex' !! "src_map"%string
       = Some (VLongTensor2 (map (map (stoi src_vocab)) src))
    /\ (forall key, key <> "src_map"%string -> key <> "alignment"%string ->
                    ex' !! key = example !! key).
Proof.
  intros Hsrc Htgt Hrect src_vocab.
  unfold HierarchicalTextDataset.dynamic_dict_step. rewrite Hsrc. simpl.
  rewrite (LongTensor2_rectangular _ n).
  2:{ apply Forall_fmap. eapply Forall_impl; [exact Hrect|].
      intros seq Hlen. simpl. by rewrite length_map. }
  rewrite lookup_insert_ne by done. rewrite Htgt. simpl.
  eexists _, _. split; [reflexivity|]. fold src_vocab.
  split_and!.
  - by rewrite lookup_insert_eq.
  - unfold len. cbn [length]. rewrite length_app, length_map. cbn. lia.
  - done.
  - change ((0 :: map (stoi src_vocab) tgt ++ [0]) !! S (length tgt))
      with ((map (stoi src_vocab) tgt ++ [0]) !! length tgt).
    rewrite lookup_app_r by (by rewrite length_map).
    by rewrite length_map, Nat.sub_diag.
  - intros k w Hk.
    change ((0 :: map (stoi src_vocab) tgt ++ [0]) !! S k)
      with ((map (stoi src_vocab) tgt ++ [0]) !! k).
    rewrite lookup_app_l by (rewrite length_map; by eapply lookup_lt_Some).
    change (map (stoi src_vocab) tgt) with (stoi src_vocab <$> tgt).
    by rewrite list_lookup_fmap, Hk.
  - rewrite lookup_insert_ne by done. by rewrite lookup_insert_eq.
  - intros key H1 H2. by rewrite !lookup_insert_ne.
Qed.

(** X18: [filter_pred] tests the source first. Whenever the source length is
    not within [1 .. src_seq_length] the answer is false and the target is
    not looked at, so with the default bound 0 every example is refused;
    when the source passes and the example has no target, the predicate
    raises. *)
Theorem filter_pred_source_first (src_seq_length tgt_seq_length : Z)
    (example : gmap string Value) (n : Z) :
  attr_len example "src" = Ok n ->
  (src_seq_length = 0 -> filter_pred src_seq_length tgt_seq_length example
                         = Ok false)
  /\ (~ (0 < n <= src_seq_length) ->
      filter_pred src_seq_length tgt_seq_length example = Ok false)
  /\ (0 < n <= src_seq_length -> example !! "tgt"%string = None ->
      filter_pred src_seq_length tgt_seq_length example
      = Raise AttributeError).
Proof.
  intros Hn. unfold filter_pred. rewrite Hn. simpl.
  destruct (Z.ltb_spec 0 n); destruct (Z.leb_spec n src_seq_length);
    simpl; split_and!; try done; try lia.
  intros _ Hnone. unfold attr_len. by rewrite Hnone.
Qed.

End Assembler.

(** ** The mass of a row under the collapser *)

Section Mass.

Import HierarchicalTextDataset.

Implicit Types (row : nat -> Q) (l : list nat).

Lemma Qsum_set_col row (x : Z) (v : Q) l :
  NoDup l ->
  (Qsum (map (set_col row x v) l)
   == Qsum (map row l)
      + (if decide (Z.to_nat x ∈ l) then v - row (Z.to_nat x) else 0))%Q.
Proof.
  induction l as [|c l IH]; intros Hnd.
  - cbn [map]. destruct (decide _) as [Hin|_].
    + by apply elem_of_nil in Hin.
    + unfold Qsum. cbn [foldr]. ring.
  - apply NoDup_cons in Hnd as [Hc Hnd]. cbn [map Qsum foldr].
    fold (Qsum (map (set_col row x v) l)). fold (Qsum (map row l)).
    rewrite (IH Hnd). unfold set_col at 1.
    destruct (decide (Z.to_nat x ∈ l)) as [Hin|Hnin];
      destruct (decide (Z.to_nat x ∈ c :: l)) as [Hin'|Hnin'];
      destruct (Nat.eqb_spec c (Z.to_nat x)) as [Heq|Hne];
      try ring.
    + subst c. done.
    + exfalso. apply Hnin'. by right.
    + exfalso. apply Hnin'. by right.
    + subst c. ring.
    + apply elem_of_cons in Hin' as [?|?]; [congruence|done].
    + exfalso. apply Hnin'. subst c. by left.
Qed.

Lemma row_sum_set_col (V : nat) row (x : Z) (v : Q) :
  (Z.to_nat x < V)%nat ->
  (row_sum V (set_col row x v) == row_sum V row - row (Z.to_nat x) + v)%Q.
Proof.
  intros Hx. unfold row_sum. rewrite Qsum_set_col by apply NoDup_seq.
  rewrite decide_True by (apply elem_of_seq; lia). ring.
Qed.

Lemma index_add_untouched row (idx : list Z) (src : list Q) (c : nat) :
  c ∉ Z.to_nat <$> idx -> index_add_ row idx src c = row c.
Proof.
  revert row src. induction idx as [|i idx IH]; intros row src Hc; [done|].
  destruct src as [|v src]; [done|]. cbn [index_add_].
  rewrite fmap_cons in Hc. apply not_elem_of_cons in Hc as [Hne Hc].
  rewrite IH by done. unfold set_col.
  by destruct (Nat.eqb_spec c (Z.to_nat i)).
Qed.

Lemma row_sum_index_add (V : nat) (idx : list Z) :
  forall row (src : list Q),
    length idx = length src ->
    Forall (fun x => (Z.to_nat x < V)%nat) idx ->
    (row_sum V (index_add_ row idx src) == row_sum V row + Qsum src)%Q.
Proof.
  induction idx as [|i idx IH]; intros row [|v src] Hlen Hin;
    simpl in Hlen; try done.
  - simpl. ring.
  - apply Forall_cons in Hin as [Hi Hin]. cbn [index_add_ Qsum foldr].
    fold (Qsum src). rewrite IH by (done || lia).
    rewrite row_sum_set_col by done. ring.
Qed.

Lemma row_sum_index_fill (V : nat) (v : Q) (idx : list Z) :
  forall row,
    NoDup (Z.to_nat <$> idx) ->
    Forall (fun x => (Z.to_nat x < V)%nat) idx ->
    (row_sum V (index_fill_ row idx v)
     == row_sum V row - Qsum (map (fun x => row (Z.to_nat x)) idx)
        + inject_Z (len idx) * v)%Q.
Proof.
  unfold index_fill_.
  induction idx as [|i idx IH]; intros row Hnd Hin.
  - cbn [foldl map]. unfold Qsum, len. cbn [foldr length].
    change (inject_Z (Z.of_nat 0)) with 0%Q. ring.
  - rewrite fmap_cons in Hnd. apply NoDup_cons in Hnd as [Hi Hnd].
    apply Forall_cons in Hin as [Hiv Hin]. cbn [foldl].
    rewrite IH by done. rewrite row_sum_set_col by done.
    assert (Hsame : map (fun x => set_col row i v (Z.to_nat x)) idx
                    = map (fun x => row (Z.to_nat x)) idx).
    { apply map_ext_in. intros x Hx. unfold set_col.
      destruct (Nat.eqb_spec (Z.to_nat x) (Z.to_nat i)) as [Heq|_]; [|done].
      exfalso. apply Hi. rewrite <- Heq. apply list_elem_of_fmap.
      exists x. split; [done|]. by apply list_elem_of_In. }
    rewrite Hsame. cbn [map Qsum foldr].
    fold (Qsum (map (fun x => row (Z.to_nat x)) idx)).
    replace (len (i :: idx)) with (len idx + 1)
      by (unfold len; cbn [length]; lia).
    rewrite inject_Z_plus. change (inject_Z 1) with 1%Q. ring.
Qed.

(** Lines 135 to 137 on one row: every move takes the old value of its
    expanded column to a shared column and leaves epsilon behind. *)
Lemma row_sum_collapse_row (V : nat) (ms : list (Z * Z)) row :
  NoDup (Z.to_nat <$> ms.*1) ->
  Forall (fun x => (Z.to_nat x < V)%nat) ms.*1 ->
  Forall (fun x => (Z.to_nat x < V)%nat) ms.*2 ->
  (forall x, x ∈ ms.*1 -> Z.to_nat x ∉ Z.to_nat <$> ms.*2) ->
  (row_sum V (collapse_row ms row)
   == row_sum V row + inject_Z (len ms) * epsilon)%Q.
Proof.
  intros Hnd Hblank Hfill Hdisj. unfold collapse_row.
  rewrite row_sum_index_fill by done.
  rewrite row_sum_index_add
    by (done || unfold index_select; by rewrite length_map, !length_fmap).
  assert (Hsame :
    map (fun x => index_add_ row ms.*2 (index_select row ms.*1) (Z.to_nat x))
        ms.*1
    = index_select row ms.*1).
  { unfold index_select at 2. apply map_ext_in. intros x Hx.
    apply index_add_untouched. apply Hdisj. by apply list_elem_of_In. }
  rewrite Hsame.
  replace (len ms.*1) with (len ms) by (unfold len; by rewrite length_fmap).
  ring.
Qed.

Lemma moves_shape (o : nat) (tgt_vocab src_vocab : Vocab) :
  Forall (fun sw => 0 <= stoi tgt_vocab sw < Z.of_nat o) (itos src_vocab) ->
  let ms := moves (Z.of_nat o) tgt_vocab src_vocab in
  NoDup (Z.to_nat <$> ms.*1)
  /\ Forall (fun x => (o <= Z.to_nat x < o + length (itos src_vocab))%nat)
            ms.*1
  /\ Forall (fun x => (Z.to_nat x < o)%nat) ms.*2.
Proof.
  intros Hs ms. split_and!.
  - subst ms. unfold moves.
    assert (Hgen : forall l : list nat,
      NoDup l ->
      NoDup (Z.to_nat <$> (omap (fun i : nat =>
                match itos src_vocab !! i with
                | Some sw =>
                    if stoi tgt_vocab sw =? 0 then None
                    else Some (Z.of_nat o + Z.of_nat i, stoi tgt_vocab sw)
                | None => None
                end) l).*1)
      /\ forall c, c ∈ Z.to_nat <$> (omap (fun i : nat =>
                match itos src_vocab !! i with
                | Some sw =>
                    if stoi tgt_vocab sw =? 0 then None
                    else Some (Z.of_nat o + Z.of_nat i, stoi tgt_vocab sw)
                | None => None
                end) l).*1 -> exists i, i ∈ l /\ c = (o + i)%nat).
    { induction l as [|i l IH]; intros Hnd.
      - split; [constructor|]. intros c Hc. by apply elem_of_nil in Hc.
      - apply NoDup_cons in Hnd as [Hi Hnd]. destruct (IH Hnd) as [IH1 IH2].
        cbn [omap list_omap].
        destruct (itos src_vocab !! i) as [sw|].
        2:{ split; [done|]. intros c Hc. destruct (IH2 c Hc) as (j & ? & ?).
            exists j. split; [by right|done]. }
        destruct (stoi tgt_vocab sw =? 0).
        { split; [done|]. intros c Hc. destruct (IH2 c Hc) as (j & ? & ?).
          exists j. split; [by right|done]. }
        rewrite !fmap_cons. cbn [fst]. split.
        + apply NoDup_cons. split; [|done].
          intros Hin. destruct (IH2 _ Hin) as (j & Hj & Heq).
          assert (j = i) by lia. by subst j.
        + intros c [->|Hc]%elem_of_cons.
          * exists i. split; [by left|lia].
          * destruct (IH2 c Hc) as (j & ? & ?).
            exists j. split; [by right|done]. }
    apply Hgen, NoDup_seq.
  - apply Forall_forall. intros x Hx.
    apply list_elem_of_fmap in Hx as ([x' ti] & -> & Hm).
    apply elem_of_moves in Hm as (i & sw & Hi & Hsw & _ & _ & ->).
    apply lookup_lt_Some in Hsw. simpl. lia.
  - apply Forall_forall. intros x Hx.
    apply list_elem_of_fmap in Hx as ([x' ti] & -> & Hm).
    apply elem_of_moves in Hm as (i & sw & Hi & Hsw & <- & _ & _).
    rewrite Forall_forall in Hs.
    specialize (Hs sw ltac:(by eapply list_elem_of_lookup_2)). simpl. lia.
Qed.

(** X19: the collapser moves mass, it does not create or lose any beyond the
    epsilons it writes: for every output position and batch element, the sum
    of the row over all columns grows by epsilon times the number of local
    tokens collapsed. *)
Theorem collapse_preserves_mass (scores : Tensor3) (batch : Batch)
    (tgt_vocab : Vocab) (src_vocabs : list Vocab) :
  collapsible scores batch tgt_vocab src_vocabs = true ->
  exists scores',
    collapse_copy_scores scores batch tgt_vocab src_vocabs = Ok scores'
    /\ forall (t b : nat) (src_vocab : Vocab),
         (b < batch_size batch)%nat ->
         src_vocab_at src_vocabs batch b = Ok src_vocab ->
         (row_sum (dimV scores) (entry scores' t b)
          == row_sum (dimV scores) (entry scores t b)
             + inject_Z (len (moves (len (itos tgt_vocab)) tgt_vocab
                                    src_vocab))
               * epsilon)%Q.
Proof.
  intros Hok. pose proof (collapsible_forall _ _ _ _ Hok) as Hall.
  destruct (collapse_loop_spec batch tgt_vocab src_vocabs
              (seq 0 (batch_size batch)) scores (NoDup_seq _ _) Hall)
    as (scores' & Hrun & Hd & He).
  exists scores'. split; [done|].
  intros t b src_vocab Hb Hat.
  assert (Hin : b ∈ seq 0 (batch_size batch)) by (apply elem_of_seq; lia).
  rewrite Forall_forall in Hall.
  destruct (collapsible_at_inv _ _ _ _ _ (Hall b Hin))
    as (sv & Hat' & _ & Hv & Hs).
  rewrite Hat in Hat'. injection Hat' as <-.
  destruct (moves_shape (length (itos tgt_vocab)) tgt_vocab src_vocab Hs)
    as (Hnd & Hblank & Hfill).
  assert (Hrow : forall c,
    entry scores' t b c
    = collapse_row (moves (len (itos tgt_vocab)) tgt_vocab src_vocab)
                   (entry scores t b) c).
  { intros c. rewrite He, decide_True by done.
    unfold collapsed_row. by rewrite Hat. }
  assert (Hext : row_sum (dimV scores) (entry scores' t b)
                 = row_sum (dimV scores)
                     (collapse_row (moves (len (itos tgt_vocab)) tgt_vocab
                                          src_vocab) (entry scores t b))).
  { unfold row_sum. f_equal. apply map_ext. intros c. apply Hrow. }
  rewrite Hext. apply row_sum_collapse_row; try done.
  - eapply Forall_impl; [exact Hblank|]. simpl. intros; lia.
  - eapply Forall_impl; [exact Hfill|]. simpl. intros; lia.
  - intros x Hx Hin'. rewrite Forall_forall in Hblank, Hfill.
    specialize (Hblank x Hx).
    apply list_elem_of_fmap in Hin' as (y & Heq & Hy).
    specialize (Hfill y Hy). simpl in *. lia.
Qed.

(** X20: without local vocabularies, as in a dataset built with the dynamic
    dictionary switched off, the collapser fails on the first batch element:
    every index into the empty list is out of range. *)
Theorem collapse_without_vocabularies (scores : Tensor3) (n : nat) (i : Z)
    (rest : list Z) (tgt_vocab : Vocab) :
  collapse_copy_scores scores {| batch_size := S n; indices := i :: rest |}
    tgt_vocab []
  = Raise IndexError.
Proof.
  unfold collapse_copy_scores. cbn [batch_size seq collapse_loop].
  unfold collapse_one. cbn [indices].
  assert (Hfirst : getitem (i :: rest) (Z.of_nat 0) = Ok i) by done.
  rewrite Hfirst. cbn [mbind result_bind].
  assert (Hnone : getitem (@nil Vocab) i = Raise IndexError).
  { unfold getitem, len. cbn [length].
    change (Z.of_nat 0 + i) with i.
    destruct (Z.ltb_spec i 0) as [Hneg|Hpos].
    - by destruct (Z.ltb_spec i 0); [|lia].
    - destruct (Z.ltb_spec i 0); [lia|]. by rewrite lookup_nil. }
  by rewrite Hnone.
Qed.

End Mass.

(** ** Truncation windows and the alignment padding *)

Section Windows.

Context {A : Type}.
Implicit Types l line : list A.

Lemma slice_from_suffix (start : Z) l :
  exists n : nat, slice_from start l = drop n l.
Proof. unfold slice_from. by eexists. Qed.

Lemma slice_to_prefix (stop : Z) l :
  exists n : nat, slice_to stop l = take n l.
Proof. unfold slice_to. by eexists. Qed.

(** X21: truncation only cuts. Whatever the two outer constants are, the
    sentences kept are a contiguous stretch of the document, in their
    order; with the constants of the module a document of at most five
    sentences is kept whole. The inner truncation keeps a prefix of the
    line, of at most [truncate] tokens when [truncate] is positive. *)
Theorem truncation_only_cuts (start stop truncate : Z) l line :
  (exists before after, l = before ++ outer_truncate start stop l ++ after)
  /\ (len l <= 5 ->
      outer_truncate TRUNC_OUTER_START TRUNC_OUTER_END l = l)
  /\ (exists after, line = truncate_line truncate line ++ after)
  /\ (0 < truncate -> len (truncate_line truncate line) <= truncate).
Proof.
  split_and!.
  - unfold outer_truncate.
    destruct (truthy start).
    + destruct (slice_from_suffix start l) as [n ->].
      destruct (truthy stop).
      * destruct (slice_to_prefix stop (drop n l)) as [m ->].
        exists (take n l), (drop m (drop n l)).
        by rewrite take_drop, take_drop.
      * exists (take n l), []. by rewrite app_nil_r, take_drop.
    + destruct (truthy stop).
      * destruct (slice_to_prefix stop l) as [m ->].
        exists [], (drop m l). by rewrite take_drop.
      * exists [], []. by rewrite app_nil_r.
  - intros Hlen. rewrite outer_truncate_negative_start by done.
    unfold len in Hlen.
    replace (length l - Z.to_nat (- TRUNC_OUTER_START))%nat with 0%nat
      by (unfold TRUNC_OUTER_START; lia).
    done.
  - unfold truncate_line. destruct (truthy truncate).
    + destruct (slice_to_prefix truncate line) as [m ->].
      exists (drop m line). by rewrite take_drop.
    + exists []. by rewrite app_nil_r.
  - intros Hpos. unfold truncate_line, truthy, slice_to, len.
    destruct (Z.eqb_spec truncate 0); [lia|]. simpl.
    destruct (Z.ltb_spec truncate 0); [lia|].
    rewrite length_take. lia.
Qed.

End Windows.

Section Padding.

Import HierarchicalTextDataset.




End Padding.

(** ** Instances *)

Lemma src_dir_sentences :
  Forall (fun f => exists ss,
            Dataset.file_sentences Samples.no_features 0 f = Ok ss)
         Samples.src_dir.
Proof. repeat constructor; eexists; by vm_compute. Qed.

Lemma read_text_dir_src_records_witness :
  exists recs,
    Dataset.read_text_dir Samples.no_features Samples.src_dir 0 "src"
    = (recs, StopIteration)
    /\ Forall2 (Dataset.src_record Samples.no_features 0)
               (enumerate Samples.src_dir) recs.
Proof.
  apply (read_text_dir_src_records Samples.no_features Samples.src_dir 0).
  - apply src_dir_sentences.
  - simpl. discriminate.
Defined.

Lemma read_text_dir_empty_first_file_witness :
  Dataset.read_text_dir Samples.no_features
    (Samples.mkfile "E" 0 [] :: Samples.src_dir) 0 "src"
  = ([], UnboundLocalError).
Proof.
  apply (read_text_dir_empty_first_file Samples.no_features
           (Samples.mkfile "E" 0 []) Samples.src_dir 0).
  reflexivity.
Defined.

Lemma make_text_examples_src_witness :
  exists recs,
    Dataset.read_text_dir Samples.no_features Samples.src_dir 0 "src"
    = (recs, StopIteration)
    /\ length recs = 2%nat.
Proof.
  destruct (make_text_examples_src Samples.no_features
              (Samples.mkfile "A" 17 ["the cat"; "sat down"])
              [Samples.mkfile "B" 10 ["a dog ran"]] 0)
    as (recs & Hrun & Hlen & _).
  - apply src_dir_sentences.
  - simpl. discriminate.
  - by exists recs.
Defined.

Lemma num_feats_agrees_with_get_num_features_witness :
  fst (Sharded.num_feats Samples.no_features
         (Sharded.__init__ Samples.src_dir 0 "src" 20 None))
  = Dataset.get_num_features Samples.no_features Samples.src_dir "src".
Proof.
  exact (num_feats_agrees_with_get_num_features Samples.no_features
           (Sharded.__init__ Samples.src_dir 0 "src" 20 None) "src" eq_refl).
Defined.

Lemma init_one_example_per_pair_witness :
  exists ds,
    Dataset.__init__ "<unk>" "<blank>" (fun toks _ => vocab_of_itos toks)
      unit Samples.raw_field ∅ [Samples.src_example; Samples.src_example]
      (Some [Samples.tgt_example]) 0 0 1 1 false true = Ok ds
    /\ length (Dataset.examples unit ds) = 1%nat.
Proof.
  destruct (Dataset.__init__ "<unk>" "<blank>"
              (fun toks _ => vocab_of_itos toks) unit Samples.raw_field ∅
              [Samples.src_example; Samples.src_example]
              (Some [Samples.tgt_example]) 0 0 1 1 false true)
    as [ds|e] eqn:Hinit; [|by vm_compute in Hinit].
  exists ds. split; [done|].
  by destruct (init_one_example_per_pair "<unk>" "<blank>"
                 (fun toks _ => vocab_of_itos toks) unit Samples.raw_field ∅
                 [Samples.src_example; Samples.src_example]
                 (Some [Samples.tgt_example]) 0 0 1 1 false true ds Hinit)
    as [Hlen _].
Defined.

Lemma sample_dataset :
  exists ds,
    Dataset.__init__ "<unk>" "<blank>" (fun toks _ => vocab_of_itos toks)
      unit Samples.raw_field ∅ [Samples.src_example]
      (Some [Samples.tgt_example]) 0 0 1 1 false true = Ok ds
    /\ Dataset.examples unit ds = [Samples.joined_example].
Proof. eexists. split; vm_compute; reflexivity. Qed.

Lemma init_examples_share_schema_witness :
  exists n, 0 <= n /\ Dataset.attr_len Samples.joined_example "src" = Ok n.
Proof.
  destruct sample_dataset as (ds & Hinit & Hex).
  destruct (init_examples_share_schema "<unk>" "<blank>"
              (fun toks _ => vocab_of_itos toks) unit Samples.raw_field ∅
              [Samples.src_example] (Some [Samples.tgt_example])
              0 0 1 1 false true ds Samples.joined_example Hinit)
    as (_ & n & Hpos & Hlen & _).
  - rewrite Hex. apply list_elem_of_here.
  - exists n. split; [exact Hpos|exact Hlen].
Defined.

Lemma dynamic_dict_alignment_witness :
  exists ex' align,
    Dataset.dynamic_dict_step "<unk>" "<blank>"
      (fun toks _ => vocab_of_itos toks) [] Samples.rect_example
    = (Ok ex', [] ++ [vocab_of_itos ["the"; "cat"; "sat"; "down"]])
    /\ ex' !! "alignment"%string = Some (VLongTensor1 align)
    /\ len align = 4.
Proof.
  destruct (dynamic_dict_alignment "<unk>" "<blank>"
              (fun toks _ => vocab_of_itos toks) [] Samples.rect_example
              [["the"; "cat"]; ["sat"; "down"]]%string ["le"; "chat"]%string
              2%nat)
    as (ex' & align & Hstep & Hal & Hlen & _).
  - reflexivity.
  - reflexivity.
  - repeat constructor.
  - by exists ex', align.
Defined.

Lemma filter_pred_source_first_witness :
  Dataset.filter_pred 0 0 Samples.joined_example = Ok false.
Proof.
  destruct (filter_pred_source_first 0 0 Samples.joined_example 7 eq_refl)
    as (Hdefault & _).
  by apply Hdefault.
Defined.

Lemma collapse_preserves_mass_witness :
  exists scores',
    Dataset.collapse_copy_scores Samples.scores Samples.one_batch
      Samples.tgt_vocab [Samples.src_vocab] = Ok scores'
    /\ (row_sum 7 (entry scores' 0 0)
        == row_sum 7 (entry Samples.scores 0 0)
           + inject_Z 1 * Dataset.epsilon)%Q.
Proof.
  destruct (collapse_preserves_mass Samples.scores Samples.one_batch
              Samples.tgt_vocab [Samples.src_vocab])
    as (scores' & Hrun & Hmass); [by vm_compute|].
  exists scores'. split; [done|].
  exact (Hmass 0%nat 0%nat Samples.src_vocab ltac:(simpl; lia) eq_refl).
Defined.
